(** * Drive Ya Nuts solver: a shallow embedding of [solver.py]

    The program places seven hexagonal nuts (one in the centre, six
    around it), turns the outer nuts until they agree with the centre,
    and prints every board on which neighbouring outer nuts agree too.

    Python values are modelled as follows.
    - an [int] is a [Z];
    - a [list] of ints and a [collections.deque] of ints are [list Z];
    - indexing ([x[i]]) may raise [IndexError]: see [getitem];
    - the [while True] loop of [align_to_center] takes fuel, one unit
      per iteration;
    - [print] appends to the text written on standard output.

    The program is given twice. First on values, where a board is a list
    of lists and a mutation returns the new board; most properties are
    proved there. Then on a store of objects, where names hold locations
    and mutations happen in place; that one is used to show which objects
    a run changes, and that the first one loses nothing by its use of
    values. *)

From stdpp Require Import base list strings pretty gmap.

Local Open Scope Z_scope.

(** ** Results of running Python code *)

(** [IndexError] is the only exception that the program on values can
    raise. [TypeError] stands, in the program on the store, for the use
    of an object as something it is not. *)
Inductive exn : Set := IndexError | TypeError.

(** A result, an exception, or a loop that has used up its fuel. *)

Inductive result (A : Type) : Type :=
| Ok (a : A)
| Raise (e : exn)
| OutOfFuel.

Arguments Ok {A} a.
Arguments Raise {A} e.
Arguments OutOfFuel {A}.

Global Instance result_ret : MRet result := @Ok.

Global Instance result_bind : MBind result := λ A B k m,
  match m with
  | Ok a => k a
  | Raise e => Raise e
  | OutOfFuel => OutOfFuel
  end.

Global Instance exn_eq_dec : EqDecision exn.
Proof. solve_decision. Defined.

Global Instance result_eq_dec {A} `{!EqDecision A} : EqDecision (result A).
Proof. solve_decision. Defined.

(** ** Sequences *)

(** A piece is the list of its six sides; on the board it is held in a
    deque. Both are sequences of ints. *)
Abbreviation Piece := (list Z).
Abbreviation Deque := (list Z).

(** Where the index [i] points in [l]: a negative index counts from the
    end. *)
Definition index_of {A} (l : list A) (i : Z) : Z :=
  if bool_decide (i < 0) then i + Z.of_nat (length l) else i.

(** [l[i]] for a Python [list] or [deque]; an index out of range raises
    [IndexError]. *)
Definition getitem {A} (l : list A) (i : Z) : result A :=
  let j := index_of l i in
  if bool_decide (j < 0) then Raise IndexError
  else match l !! Z.to_nat j with
       | Some x => Ok x
       | None => Raise IndexError
       end.

(** [del l[i]], as the list that is left. *)
Definition delitem {A} (l : list A) (i : Z) : result (list A) :=
  _ ← getitem l i;
  Ok (delete (Z.to_nat (index_of l i)) l).

(** [range(lo, hi)] *)
Definition range (lo hi : Z) : list Z := seqZ lo (hi - lo).

(** [collections.deque.rotate()] with its default argument: one step to
    the right, the last element becomes the first. An empty deque is left
    as it is. *)
Definition rotate (d : Deque) : Deque :=
  match last d with
  | Some x => x :: removelast d
  | None => []
  end.

(** [state[i].rotate()] seen from the board: the deque stored at [i] is
    rotated in place, the other positions are untouched. *)
Definition rotate_at (state : list Deque) (i : Z) : result (list Deque) :=
  d ← getitem state i;
  Ok (<[Z.to_nat (index_of state i) := rotate d]> state).

(** ** The program *)

Definition NUM_SIDES : Z := 6.

Definition pieces : list Piece :=
  [ [1; 5; 3; 2; 6; 4];
    [1; 4; 2; 3; 5; 6];
    [1; 3; 5; 4; 2; 6];
    [1; 3; 5; 2; 4; 6];
    [1; 2; 3; 4; 5; 6];
    [1; 2; 5; 6; 3; 4];
    [1; 6; 5; 4; 3; 2] ].

Definition NUM_PIECES : Z := Z.of_nat (length pieces).

(** [init_state]: one fresh deque per piece of the layout, holding a copy
    of its sides. *)
Definition init_state (layout : list Piece) : list Deque :=
  map (λ p : Piece, (p : Deque)) layout.

Definition get_center_side (piecenum : Z) : Z := piecenum - 1.

Definition check_piece (state : list Deque) (number : Z) : result bool :=
  piece ← getitem state number;
  right ← getitem state (if bool_decide (number < NUM_SIDES) then number + 1 else 1);
  a ← getitem piece 5;
  b ← getitem right 1;
  Ok (bool_decide (a = b)).

(** The [for] loop of [check], over the remaining values of [i]; it
    returns [False] at the first piece that does not match. *)
Fixpoint check_from (state : list Deque) (idxs : list Z) : result bool :=
  match idxs with
  | [] => Ok true
  | i :: idxs' =>
      b ← check_piece state i;
      if negb b then Ok false else check_from state idxs'
  end.

Definition check (state : list Deque) : result bool :=
  check_from state (range 1 NUM_PIECES).

(** ** Standard output *)

(** A computation that prints: the text it wrote, and how it ended. The
    text written before an exception stays written. *)
Definition io (A : Type) : Type := string * result A.

Global Instance io_ret : MRet io := λ A a, ("", Ok a).

Global Instance io_bind : MBind io := λ A B k m,
  match m.2 with
  | Ok a => let m' := k a in (m.1 +:+ m'.1, m'.2)
  | Raise e => (m.1, Raise e)
  | OutOfFuel => (m.1, OutOfFuel)
  end.

(** A computation that does not print. *)
Definition quiet {A} (r : result A) : io A := ("", r).

Definition newline : string := String (Ascii.ascii_of_nat 10) "".

(** [print(s, end=e)] *)
Definition print (s e : string) : io unit := (s +:+ e, Ok tt).

(** [str(list(item))] for a deque of ints: ["[1, 2, 3]"]. *)
Definition str_list (l : list Z) : string :=
  "[" +:+ String.concat ", " (pretty <$> l) +:+ "]".

Fixpoint print_items (items : list Deque) : io unit :=
  match items with
  | [] => mret tt
  | item :: items' => _ ← print (str_list item) ""; print_items items'
  end.

Definition print_state (state : list Deque) : io unit :=
  _ ← print_items state; print "" newline.

(** ** Generators *)

(** A generator that has been run to its end: the values it yielded, in
    order, and whether it then stopped ([Ok tt]) or raised. *)
Definition gen (A : Type) : Type := list A * result unit.

(** Runs [g1], then [g2] if [g1] stopped without raising. *)
Definition gen_seq {A} (g1 g2 : gen A) : gen A :=
  match g1.2 with
  | Ok _ => (g1.1 ++ g2.1, g2.2)
  | r => (g1.1, r)
  end.

(** Goes on with [k] when [r] gave a value; a generator that raises
    yields nothing more. *)
Definition gen_try {A B} (r : result A) (k : A → gen B) : gen B :=
  match r with
  | Ok a => k a
  | Raise e => ([], Raise e)
  | OutOfFuel => ([], OutOfFuel)
  end.

Module itertools.

(** Every way of taking one element out of [l], with what is left, in
    the order of [l]. *)
Fixpoint picks {A} (l : list A) : list (A * list A) :=
  match l with
  | [] => []
  | x :: xs => (x, xs) :: ((λ p, (p.1, x :: p.2)) <$> picks xs)
  end.

Fixpoint permutations_of_length {A} (n : nat) (l : list A) : list (list A) :=
  match n with
  | O => [[]]
  | S n' =>
      p ← picks l;
      (p.1 ::.) <$> permutations_of_length n' p.2
  end.

(** [itertools.permutations(l)]: all orderings of [l], elements told
    apart by position, in lexicographic order of the positions, as the
    library documents it. *)
Definition permutations {A} (l : list A) : list (list A) :=
  permutations_of_length (length l) l.

End itertools.

(** The inner [for trailer in gen] loop of [necklace_perms]. *)
Fixpoint yield_trailers (center : Piece) (modified_board : list Piece)
    (trailers : list (list Piece)) : gen (list Piece) :=
  match trailers with
  | [] => ([], Ok tt)
  | trailer :: trailers' =>
      gen_try (getitem modified_board 0) (λ first,
        gen_seq ([[center] ++ [first] ++ trailer], Ok tt)
                (yield_trailers center modified_board trailers'))
  end.

(** One round of the outer loop of [necklace_perms]. *)
Definition necklace_perms_round (pieces : list Piece) (i : Z) : gen (list Piece) :=
  let modified_board := pieces in
  gen_try (getitem modified_board i) (λ center,
    gen_try (delitem modified_board i) (λ modified_board,
      yield_trailers center modified_board
        (itertools.permutations (drop 1 modified_board)))).

Fixpoint necklace_perms_from (pieces : list Piece) (idxs : list Z) : gen (list Piece) :=
  match idxs with
  | [] => ([], Ok tt)
  | i :: idxs' =>
      gen_seq (necklace_perms_round pieces i) (necklace_perms_from pieces idxs')
  end.

Definition necklace_perms (pieces : list Piece) : gen (list Piece) :=
  necklace_perms_from pieces (range 0 NUM_PIECES).

(** ** Alignment *)

(** [rotate_center]: [state[0].rotate()] *)
Definition rotate_center (state : list Deque) : result (list Deque) :=
  rotate_at state 0.

(** The [while True] loop of [align_to_center] for one outer piece. *)
Fixpoint align_piece (fuel : nat) (state : list Deque) (pieceidx stop_value : Z)
    : result (list Deque) :=
  match fuel with
  | O => OutOfFuel
  | S fuel' =>
      piece ← getitem state pieceidx;
      side ← getitem piece 0;
      if bool_decide (side = stop_value) then Ok state
      else
        state' ← rotate_at state pieceidx;
        align_piece fuel' state' pieceidx stop_value
  end.

(** The [for pieceidx] loop of [align_to_center]. [center] is what the
    deque at position 0 holds. In Python it is a second name for that
    deque; the loop turns outer nuts only, so reading through the name
    gives the same (see [align_from_simulates] for the program on the
    store, which does read through it). *)
Fixpoint align_from (fuel : nat) (center : Deque) (state : list Deque)
    (idxs : list Z) : result (list Deque) :=
  match idxs with
  | [] => Ok state
  | pieceidx :: idxs' =>
      stop_value ← getitem center (get_center_side pieceidx);
      state' ← align_piece fuel state pieceidx stop_value;
      align_from fuel center state' idxs'
  end.

Definition align_to_center (fuel : nat) (state : list Deque) : result (list Deque) :=
  center ← getitem state 0;
  align_from fuel center state (range 1 NUM_PIECES).

(** ** The search *)

(** The [for _ in range(NUM_SIDES)] loop of [main]. *)
Fixpoint passes (fuel : nat) (state : list Deque) (rounds : list Z)
    : io (list Deque) :=
  match rounds with
  | [] => mret state
  | _ :: rounds' =>
      state1 ← quiet (align_to_center fuel state);
      found ← quiet (check state1);
      _ ← (if found : bool then print_state state1 else mret tt);
      state2 ← quiet (rotate_center state1);
      passes fuel state2 rounds'
  end.

(** The body of the [for layout] loop of [main]; it returns the state as
    the last pass left it. *)
Definition try_layout (fuel : nat) (layout : list Piece) : io (list Deque) :=
  passes fuel (init_state layout) (range 0 NUM_SIDES).

(** The [for layout] loop of [main] over the layouts yielded. *)
Fixpoint main_from (fuel : nat) (layouts : list (list Piece)) : io unit :=
  match layouts with
  | [] => mret tt
  | layout :: layouts' =>
      _ ← try_layout fuel layout;
      main_from fuel layouts'
  end.

(** [main]: the layouts are tried as they are yielded; should the
    generator raise, it does so after the layouts it yielded have been
    tried. *)
Definition main (fuel : nat) : io unit :=
  let g := necklace_perms pieces in
  _ ← main_from fuel g.1;
  quiet g.2.

(** * The program on a store of objects

    The same program once more, with the objects that Python shares by
    reference kept in a store: the list [pieces] and the lists of sides
    in it, the copies made by [necklace_perms], the lists it yields, and
    the state with its deques. A name holds a location; [rotate], [del]
    and [append] change the object at a location, for every name that
    holds it. Lists made and dropped within one expression, which no name
    ever holds, are not allocated. A generator runs interleaved with the
    loop that consumes it: [necklace_perms] takes the body of that loop
    and runs it at each [yield]. *)

Definition loc : Type := positive.

(** The objects that the program makes: a list of ints, a list of
    references, a deque of ints. *)
Inductive obj : Type :=
| PyInts (xs : list Z)
| PyRefs (ls : list loc)
| PyDeque (xs : list Z).

Abbreviation heap := (gmap loc obj).

(** A computation on the store that may print: the text written, the store
    it leaves, and how it ended. *)
Definition run (A : Type) : Type := heap → string * heap * result A.

Global Instance run_ret : MRet run := λ A a h, ("", h, Ok a).

Global Instance run_bind : MBind run := λ A B k m h,
  let r := m h in
  match r.2 with
  | Ok a => let r' := k a r.1.2 in (r.1.1 +:+ r'.1.1, r'.1.2, r'.2)
  | Raise e => (r.1.1, r.1.2, Raise e)
  | OutOfFuel => (r.1.1, r.1.2, OutOfFuel)
  end.

Module store.

Definition lift {A} (r : result A) : run A := λ h, ("", h, r).

(** The object at [l]. An operation on an object of the wrong kind is
    [TypeError]; so is, for want of a better name, a location without
    object, which Python cannot have. *)
Definition read (l : loc) : run obj := λ h,
  ("", h, from_option Ok (Raise TypeError) (h !! l)).

Definition write (l : loc) (o : obj) : run unit := λ h,
  ("", <[l := o]> h, Ok tt).

(** A new object, at a location that holds none. *)
Definition alloc (o : obj) : run loc := λ h,
  let l := fresh (dom h) in ("", <[l := o]> h, Ok l).

(** [print(s, end=e)] *)
Definition print (s e : string) : run unit := λ h, (s +:+ e, h, Ok tt).

(** [l[i]] on a list of references. *)
Definition getitem_ref (l : loc) (i : Z) : run loc :=
  o ← read l;
  match o with
  | PyRefs ls => lift (getitem ls i)
  | _ => lift (Raise TypeError)
  end.

(** [l[i]] on a list or a deque of ints. *)
Definition getitem_int (l : loc) (i : Z) : run Z :=
  o ← read l;
  match o with
  | PyInts xs | PyDeque xs => lift (getitem xs i)
  | PyRefs _ => lift (Raise TypeError)
  end.

(** [l.rotate()]: the deque at [l] is changed in place. A list has no
    such method. *)
Definition rotate (l : loc) : run unit :=
  o ← read l;
  match o with
  | PyDeque xs => write l (PyDeque (rotate xs))
  | _ => lift (Raise TypeError)
  end.

(** [l[:]]: a new list with the items of the list at [l]. *)
Definition copy (l : loc) : run loc :=
  o ← read l;
  match o with
  | PyRefs ls => alloc (PyRefs ls)
  | PyInts xs => alloc (PyInts xs)
  | PyDeque _ => lift (Raise TypeError)
  end.

(** [del l[i]]: the object at [l] is changed in place. *)
Definition delitem (l : loc) (i : Z) : run unit :=
  o ← read l;
  match o with
  | PyRefs ls => ls' ← lift (delitem ls i); write l (PyRefs ls')
  | PyInts xs => xs' ← lift (delitem xs i); write l (PyInts xs')
  | PyDeque xs => xs' ← lift (delitem xs i); write l (PyDeque xs')
  end.

(** [l.append(x)] for a reference [x]: the list at [l] is changed in
    place. *)
Definition append (l x : loc) : run unit :=
  o ← read l;
  match o with
  | PyRefs ls => write l (PyRefs (ls ++ [x]))
  | _ => lift (Raise TypeError)
  end.

(** [collections.deque(piece)]: a new deque with the ints found at
    [piece]. *)
Definition deque (piece : loc) : run loc :=
  o ← read piece;
  match o with
  | PyInts xs | PyDeque xs => alloc (PyDeque xs)
  | PyRefs _ => lift (Raise TypeError)
  end.

(** The items of the list of references at [l], as a [for] loop or a
    slice takes them. No loop of the program changes the list it runs
    over. *)
Definition items (l : loc) : run (list loc) :=
  o ← read l;
  match o with
  | PyRefs ls => mret ls
  | _ => lift (Raise TypeError)
  end.

(** The [for piece in layout] loop of [init_state]. *)
Fixpoint init_state_from (state : loc) (layout : list loc) : run unit :=
  match layout with
  | [] => mret tt
  | piece :: layout' =>
      d ← deque piece;
      _ ← append state d;
      init_state_from state layout'
  end.

Definition init_state (layout : loc) : run loc :=
  state ← alloc (PyRefs []);
  pieces ← items layout;
  _ ← init_state_from state pieces;
  mret state.

Definition check_piece (state : loc) (number : Z) : run bool :=
  piece ← getitem_ref state number;
  right ← getitem_ref state (if bool_decide (number < NUM_SIDES) then number + 1 else 1);
  a ← getitem_int piece 5;
  b ← getitem_int right 1;
  mret (bool_decide (a = b)).

Fixpoint check_from (state : loc) (idxs : list Z) : run bool :=
  match idxs with
  | [] => mret true
  | i :: idxs' =>
      b ← check_piece state i;
      if negb b then mret false else check_from state idxs'
  end.

Definition check (state : loc) : run bool :=
  check_from state (range 1 NUM_PIECES).

(** [print(list(item), end='')] for every item. *)
Fixpoint print_items (items : list loc) : run unit :=
  match items with
  | [] => mret tt
  | item :: items' =>
      o ← read item;
      _ ← match o with
          | PyInts xs | PyDeque xs => print (str_list xs) ""
          | PyRefs _ => lift (Raise TypeError)
          end;
      print_items items'
  end.

Definition print_state (state : loc) : run unit :=
  ds ← items state;
  _ ← print_items ds;
  print "" newline.

Definition rotate_center (state : loc) : run unit :=
  center ← getitem_ref state 0;
  rotate center.

Fixpoint align_piece (fuel : nat) (state : loc) (pieceidx stop_value : Z) : run unit :=
  match fuel with
  | O => lift OutOfFuel
  | S fuel' =>
      piece ← getitem_ref state pieceidx;
      side ← getitem_int piece 0;
      if bool_decide (side = stop_value) then mret tt
      else
        _ ← rotate piece;
        align_piece fuel' state pieceidx stop_value
  end.

(** [center] is a second name for the deque at position 0 of the state:
    each [center[...]] reads what that deque holds at that moment. *)
Fixpoint align_from (fuel : nat) (center state : loc) (idxs : list Z) : run unit :=
  match idxs with
  | [] => mret tt
  | pieceidx :: idxs' =>
      stop_value ← getitem_int center (get_center_side pieceidx);
      _ ← align_piece fuel state pieceidx stop_value;
      align_from fuel center state idxs'
  end.

Definition align_to_center (fuel : nat) (state : loc) : run unit :=
  center ← getitem_ref state 0;
  align_from fuel center state (range 1 NUM_PIECES).

Fixpoint passes (fuel : nat) (state : loc) (rounds : list Z) : run unit :=
  match rounds with
  | [] => mret tt
  | _ :: rounds' =>
      _ ← align_to_center fuel state;
      found ← check state;
      _ ← (if found : bool then print_state state else mret tt);
      _ ← rotate_center state;
      passes fuel state rounds'
  end.

(** The body of the [for layout] loop of [main]. The state is dropped at
    its end: no name holds it any more. *)
Definition try_layout (fuel : nat) (layout : loc) : run unit :=
  state ← init_state layout;
  passes fuel state (range 0 NUM_SIDES).

(** The [for trailer in gen] loop of [necklace_perms]; [body] runs at the
    [yield], with the list just made. *)
Fixpoint yield_trailers (body : loc → run unit) (center modified_board : loc)
    (trailers : list (list loc)) : run unit :=
  match trailers with
  | [] => mret tt
  | trailer :: trailers' =>
      first ← getitem_ref modified_board 0;
      layout ← alloc (PyRefs ([center] ++ [first] ++ trailer));
      _ ← body layout;
      yield_trailers body center modified_board trailers'
  end.

Definition necklace_perms_round (body : loc → run unit) (pieces : loc) (i : Z)
    : run unit :=
  modified_board ← copy pieces;
  center ← getitem_ref modified_board i;
  _ ← delitem modified_board i;
  others ← items modified_board;
  yield_trailers body center modified_board
    (itertools.permutations (drop 1 others)).

Fixpoint necklace_perms_from (body : loc → run unit) (pieces : loc)
    (idxs : list Z) : run unit :=
  match idxs with
  | [] => mret tt
  | i :: idxs' =>
      _ ← necklace_perms_round body pieces i;
      necklace_perms_from body pieces idxs'
  end.

Definition necklace_perms (body : loc → run unit) (pieces : loc) : run unit :=
  necklace_perms_from body pieces (range 0 NUM_PIECES).

(** [main], with the global [pieces] at the location given. *)
Definition main (fuel : nat) (pieces : loc) : run unit :=
  necklace_perms (try_layout fuel) pieces.

End store.

(** The store when the module has been loaded: the seven lists of sides at
    locations 1 to 7, and the list [pieces] of them at location 8. *)
Definition pieces_loc : loc := 8%positive.

Definition loaded : heap :=
  list_to_map
    (zip [1; 2; 3; 4; 5; 6; 7]%positive (PyInts <$> pieces)
     ++ [(pieces_loc, PyRefs [1; 2; 3; 4; 5; 6; 7]%positive)]).

(** The list of references at [l] holds, in order, lists of ints with the
    contents [ps]. *)
Definition holds_layout (h : heap) (l : loc) (ps : list Piece) : Prop :=
  ∃ ls : list loc,
    h !! l = Some (PyRefs ls) ∧ Forall2 (λ r p, h !! r = Some (PyInts p)) ls ps.

(** The list of references at [s] is a board: it holds, in order, deques
    with the contents [st], at the locations [ds], which differ from each
    other and from [s]. *)
Definition holds_state (h : heap) (s : loc) (ds : list loc) (st : list Deque) : Prop :=
  h !! s = Some (PyRefs ds) ∧ NoDup (s :: ds) ∧
  Forall2 (λ d xs, h !! d = Some (PyDeque xs)) ds st.

(** From [h] to [h'] only objects at the locations [ls] have changed. *)
Definition changes_only (ls : list loc) (h h' : heap) : Prop :=
  ∀ l : loc, l ∉ ls → h' !! l = h !! l.

(** * Specification vocabulary *)

(** [d] after [k] single steps of [rotate]. *)
Definition rotated (k : nat) (d : Deque) : Deque := Nat.iter k rotate d.

(** [d'] is [d] turned: the same sides in the same cyclic order. *)
Definition is_rotation (d d' : Deque) : Prop := ∃ k : nat, d' = rotated k d.

(** The sides of a nut: each of the values 1 to 6, once. *)
Definition markings_once (d : list Z) : Prop := d ≡ₚ [1; 2; 3; 4; 5; 6].

(** [d] turned so that the side marked [v] leads: cut [d] at [v] and swap
    the two parts. *)
Definition face (v : Z) (d : Deque) : Deque :=
  match list_find (λ x, x = v) d with
  | Some (j, _) => drop j d ++ take j d
  | None => d
  end.

(** The board that alignment is meant to reach: the centre as it is, and
    the outer nut at position [i + 1] turned to face the centre's side
    [i]. *)
Definition aligned (state : list Deque) : list Deque :=
  match state with
  | [] => []
  | center :: outer =>
      center :: imap (λ i d, from_option (λ v, face v d) d (center !! i)) outer
  end.

(** The outer position to the right of outer position [i]. *)
Definition neighbour (i : nat) : nat := if decide (i < 6)%nat then S i else 1%nat.

(** Around the rim, side 5 of every outer nut carries the marking of side
    [lead] of its right neighbour. *)
Definition adjacent (lead : nat) (state : list Deque) : Prop :=
  ∀ i : nat, (1 ≤ i ≤ 6)%nat →
    ∃ a : Z, state !! i ≫= (.!! 5%nat) = Some a ∧
             state !! neighbour i ≫= (.!! lead) = Some a.

(** The board with its centre turned one step, as [rotate_center] leaves
    it. *)
Definition turn_center (state : list Deque) : list Deque :=
  match state with
  | [] => []
  | center :: outer => rotate center :: outer
  end.

(** The board checked in pass [r] of a layout, counting passes from 0: the
    centre turned [r] steps, the outer nuts turned to face it. *)
Definition board_at (layout : list Piece) (r : nat) : list Deque :=
  aligned (Nat.iter r turn_center (init_state layout)).

(** What a pass writes for the board it checks: its line when the check
    succeeds, nothing otherwise. *)
Definition report (state : list Deque) : string :=
  match check state with
  | Ok true => (print_state state).1
  | _ => ""
  end.

(** The chunks of text written one after another. *)
Definition written (chunks : list string) : string :=
  foldr String.append "" chunks.

(** Two boards hold the same nuts: the same centre, and outer nuts that
    are turns of each other. *)
Definition same_nuts (s s' : list Deque) : Prop :=
  head s = head s' ∧ Forall2 is_rotation (tail s) (tail s').

(** A board of seven nuts that carry each marking once. *)
Definition well_formed (state : list Deque) : Prop :=
  length state = 7%nat ∧ Forall markings_once state.

(** The layouts yielded in round [i] of [necklace_perms]: piece [i] in the
    centre, the first of the other pieces next, then every ordering of the
    rest. *)
Definition round_layouts (ps : list Piece) (i : nat) : list (list Piece) :=
  match ps !! i, delete i ps with
  | Some center, first :: rest =>
      (λ trailer, center :: first :: trailer) <$> itertools.permutations rest
  | _, _ => []
  end.

(** Everything that trying a layout writes: the reports of its six
    boards. *)
Definition layout_report (layout : list Piece) : string :=
  written (report <$> (board_at layout <$> seq 0 6)).

(** The line that the search prints on the fixed pieces. *)
Definition solution_line : string :=
  "[1, 3, 5, 4, 2, 6][1, 5, 3, 2, 6, 4][3, 4, 5, 6, 1, 2][5, 2, 4, 6, 1, 3][4, 3, 2, 1, 6, 5][2, 5, 6, 3, 4, 1][6, 1, 4, 2, 3, 5]"
  +:+ newline.

(** The board of the printed solution. *)
Definition solved_board : list Deque :=
  [ [1; 3; 5; 4; 2; 6];
    [1; 5; 3; 2; 6; 4];
    [3; 4; 5; 6; 1; 2];
    [5; 2; 4; 6; 1; 3];
    [4; 3; 2; 1; 6; 5];
    [2; 5; 6; 3; 4; 1];
    [6; 1; 4; 2; 3; 5] ].

(** The characters of a text. *)
Fixpoint chars (s : string) : list Ascii.ascii :=
  match s with
  | EmptyString => []
  | String a s' => a :: chars s'
  end.

(** A text without line break. *)
Definition one_line (s : string) : Prop := Ascii.ascii_of_nat 10 ∉ chars s.

(** How a computation ended, whatever it returned. *)
Definition ended {A} (r : result A) : result unit :=
  match r with
  | Ok _ => Ok tt
  | Raise e => Raise e
  | OutOfFuel => OutOfFuel
  end.

(** The computation [m] on the store does to the board at [s] what [p]
    does to the board [st] as a value: from a store [h] it writes the
    same text, ends the same way, changes no object but the deques of the
    board, and when [p] returns a board, that board is then at [s]. *)
Definition simulates (s : loc) (ds : list loc) (h : heap)
    (m : run unit) (p : io (list Deque)) : Prop :=
  ∃ h' : heap,
    m h = (p.1, h', ended p.2) ∧
    changes_only ds h h' ∧
    ∀ st' : list Deque, p.2 = Ok st' → holds_state h' s ds st'.

(** A printing computation without what it returns. *)
Definition forget {A} (p : io A) : io unit := (p.1, ended p.2).

(** The [for layout] loop of [main] run over a generator. *)
Definition consume (fuel : nat) (g : gen (list Piece)) : io unit :=
  _ ← main_from fuel g.1;
  quiet g.2.

(** The computation [m] on the store writes the text and ends the way
    [p] does, and leaves every object that the store [h] held as it
    was. *)
Definition prints_as (h : heap) (m : run unit) (p : io unit) : Prop :=
  ∃ h' : heap, m h = (p.1, h', p.2) ∧ h ⊆ h'.

(** The number of steps that bring the side at index [j] of a deque of
    [n] sides to the front. *)
Definition steps_to (n j : nat) : nat := ((n - j) mod n)%nat.

(** A ring of nuts read from its place [k] on, round to where it
    started. *)
Definition ring_from {A} (k : nat) (ring : list A) : list A :=
  drop k ring ++ take k ring.

(** Every outer nut leads with the marking that the centre shows it:
    side 0 of the nut at position [i] carries the marking of the centre
    at offset [i - 1]. *)
Definition faces_center (state : list Deque) : Prop :=
  ∀ i : nat, (1 ≤ i ≤ 6)%nat →
    ∃ v : Z, state !! i ≫= (.!! 0%nat) = Some v ∧
             state !! 0%nat ≫= (.!! (i - 1)%nat) = Some v.

(** A board that solves the puzzle: all nuts agree with the centre and
    with their neighbours on the rim. *)
Definition solved (state : list Deque) : Prop :=
  faces_center state ∧ adjacent 1 state.

(** The whole board turned by [k] places: the nut that was at outer
    position [i + k] comes to position [i], and the centre turns with
    the ring. *)
Definition turned_board (k : nat) (state : list Deque) : list Deque :=
  match state with
  | [] => []
  | center :: ring => ring_from k center :: ring_from k ring
  end.

(** The boards that the passes over a layout find solved. *)
Definition found_on (layout : list Piece) : list (list Deque) :=
  filter (λ board, check board = Ok true) (board_at layout <$> seq 0 6).

(** The characters of which the decimal text of an int is made. *)
Definition is_num_char (a : Ascii.ascii) : Prop := a ∈ chars "0123456789-".

(** The text of the lines [print_state] writes for the boards [boards],
    one after another. *)
Definition lines_of (boards : list (list Deque)) : string :=
  written ((λ board, (print_state board).1) <$> boards).

(** * Properties *)

(** ** Indexing *)

Lemma getitem_nat {A} (l : list A) (i : nat) :
  getitem l (Z.of_nat i) =
    match l !! i with Some x => Ok x | None => Raise IndexError end.
Proof.
  unfold getitem, index_of. repeat case_bool_decide; try lia.
  by rewrite Nat2Z.id.
Qed.

Lemma getitem_lookup {A} (l : list A) (i : nat) (x : A) :
  l !! i = Some x → getitem l (Z.of_nat i) = Ok x.
Proof. intros H. by rewrite getitem_nat, H. Qed.

Lemma getitem_head {A} (l : list A) (x : A) :
  l !! 0%nat = Some x → getitem l 0 = Ok x.
Proof. apply (getitem_lookup l 0). Qed.

Lemma rotate_at_nat (state : list Deque) (i : nat) (d : Deque) :
  state !! i = Some d →
  rotate_at state (Z.of_nat i) = Ok (<[i := rotate d]> state).
Proof.
  intros H. unfold rotate_at. rewrite (getitem_lookup _ _ _ H). simpl.
  unfold index_of. case_bool_decide; [lia|]. by rewrite Nat2Z.id.
Qed.

(** ** Rotation *)

Lemma rotate_snoc (l : list Z) (x : Z) : rotate (l ++ [x]) = x :: l.
Proof. unfold rotate. by rewrite last_snoc, removelast_last. Qed.

Lemma rotate_length (d : Deque) : length (rotate d) = length d.
Proof.
  destruct d as [|y d' _] using rev_ind; [done|].
  rewrite rotate_snoc, length_app. simpl. lia.
Qed.

Lemma rotate_iter_length (k : nat) (d : Deque) :
  length (Nat.iter k rotate d) = length d.
Proof. induction k as [|k IH]; simpl; [done|]. by rewrite rotate_length. Qed.

Lemma rotate_Permutation (d : Deque) : rotate d ≡ₚ d.
Proof.
  destruct d as [|y d' _] using rev_ind; [done|].
  rewrite rotate_snoc. by rewrite Permutation_app_comm.
Qed.

Lemma rotate_iter_Permutation (k : nat) (d : Deque) : Nat.iter k rotate d ≡ₚ d.
Proof.
  induction k as [|k IH]; simpl; [done|]. by rewrite rotate_Permutation.
Qed.

(** [k] steps to the right, for [k] up to the length, cut the deque
    [k] places before its end and swap the two parts. *)
Lemma rotate_iter_drop_take (k : nat) (d : Deque) :
  (k ≤ length d)%nat →
  Nat.iter k rotate d = drop (length d - k) d ++ take (length d - k) d.
Proof.
  induction k as [|k IH]; intros Hk.
  - simpl. rewrite Nat.sub_0_r, drop_all, firstn_all. done.
  - simpl. rewrite IH by lia.
    destruct (lookup_lt_is_Some_2 d (length d - S k)) as [x Hx]; [lia|].
    replace (length d - k)%nat with (S (length d - S k)) by lia.
    rewrite (take_S_r _ _ _ Hx), app_assoc, rotate_snoc.
    by rewrite (drop_S _ _ _ Hx).
Qed.

Lemma rotate_iter_full (d : Deque) : Nat.iter (length d) rotate d = d.
Proof.
  rewrite rotate_iter_drop_take by done.
  by rewrite Nat.sub_diag, drop_0, take_0, app_nil_r.
Qed.

Lemma rotate_iter_add (j k : nat) (d : Deque) :
  Nat.iter (j + k) rotate d = Nat.iter j rotate (Nat.iter k rotate d).
Proof. apply Nat.iter_add. Qed.

Lemma rotate_iter_mul (q : nat) (d : Deque) :
  Nat.iter (q * length d) rotate d = d.
Proof.
  induction q as [|q IH]; [done|].
  simpl. rewrite Nat.add_comm, rotate_iter_add, rotate_iter_full. done.
Qed.

Lemma rotate_iter_mod (k : nat) (d : Deque) :
  Nat.iter k rotate d = Nat.iter (k mod length d) rotate d.
Proof.
  destruct (decide (length d = 0)%nat) as [H0|H0].
  - by rewrite H0.
  - pose proof (Nat.div_mod k (length d) H0) as Hk.
    set (q := (k `div` length d)%nat) in *. set (r := (k `mod` length d)%nat) in *.
    rewrite Hk, Nat.add_comm, rotate_iter_add.
    by rewrite Nat.mul_comm, rotate_iter_mul.
Qed.

(** The leading side after [k] steps. *)
Lemma rotate_iter_head (k : nat) (d : Deque) :
  (k < length d)%nat →
  Nat.iter k rotate d !! 0%nat = d !! ((length d - k) mod length d)%nat.
Proof.
  intros Hk. rewrite rotate_iter_drop_take by lia.
  destruct (decide (k = 0)%nat) as [->|Hk0].
  - rewrite Nat.sub_0_r, Nat.Div0.mod_same, drop_all, firstn_all. done.
  - rewrite Nat.mod_small by lia.
    rewrite lookup_app_l by (rewrite length_drop; lia).
    rewrite lookup_drop. f_equal. lia.
Qed.

(** ** The alignment loop *)

Lemma rotated_rotate (k : nat) (d : Deque) :
  rotated k (rotate d) = rotated (S k) d.
Proof. unfold rotated. by rewrite <-Nat.iter_succ_r. Qed.

(** If the side [v] first leads after [k] steps, the loop makes exactly
    those [k] steps, given fuel for [k + 1] iterations. *)
Lemma align_piece_steps (i : nat) (v : Z) (k fuel : nat) (state : list Deque) (d : Deque) :
  state !! i = Some d →
  (∀ j, (j < k)%nat → ∃ x, rotated j d !! 0%nat = Some x ∧ x ≠ v) →
  rotated k d !! 0%nat = Some v →
  (k < fuel)%nat →
  align_piece fuel state (Z.of_nat i) v = Ok (<[i := rotated k d]> state).
Proof.
  revert fuel state d.
  induction k as [|k IH]; intros fuel state d Hd Hbefore Hk Hfuel;
    (destruct fuel as [|fuel]; [lia|]); simpl.
  - rewrite (getitem_lookup _ _ _ Hd). simpl.
    rewrite (getitem_head d v Hk). simpl.
    rewrite bool_decide_eq_true_2 by done.
    by rewrite list_insert_id.
  - destruct (Hbefore 0%nat) as (x & Hx & Hxv); [lia|].
    rewrite (getitem_lookup _ _ _ Hd). simpl.
    rewrite (getitem_head d x Hx). simpl.
    rewrite bool_decide_eq_false_2 by done.
    rewrite (rotate_at_nat _ _ _ Hd). simpl.
    rewrite (IH fuel (<[i := rotate d]> state) (rotate d)).
    + by rewrite list_insert_insert_eq, rotated_rotate.
    + apply list_lookup_insert_eq. by eapply lookup_lt_Some.
    + intros j Hj. rewrite rotated_rotate. apply Hbefore. lia.
    + by rewrite rotated_rotate.
    + lia.
Qed.

Lemma steps_to_lt (n j : nat) : (j < n)%nat → (steps_to n j < n)%nat.
Proof. intros H. unfold steps_to. apply Nat.mod_upper_bound. lia. Qed.

Lemma rotated_steps_to (d : Deque) (j : nat) :
  (j < length d)%nat →
  rotated (steps_to (length d) j) d = drop j d ++ take j d.
Proof.
  intros Hj. unfold rotated, steps_to.
  destruct (decide (j = 0)%nat) as [->|Hj0].
  - rewrite Nat.sub_0_r, Nat.Div0.mod_same. simpl.
    by rewrite drop_0, take_0, app_nil_r.
  - rewrite Nat.mod_small by lia.
    rewrite rotate_iter_drop_take by lia.
    by replace (length d - (length d - j))%nat with j by lia.
Qed.

Lemma face_lookup (v : Z) (d : Deque) (j : nat) :
  NoDup d → d !! j = Some v → face v d = drop j d ++ take j d.
Proof.
  intros Hnd Hj. unfold face.
  destruct (list_find (λ x, x = v) d) as [[j' x]|] eqn:Hfind.
  - apply list_find_Some in Hfind as (Hj' & -> & _).
    by rewrite (NoDup_lookup d j j' v Hnd Hj Hj').
  - apply list_find_None in Hfind.
    rewrite Forall_forall in Hfind.
    destruct (Hfind v); [|done]. by eapply list_elem_of_lookup_2.
Qed.

Lemma face_rotated (v : Z) (d : Deque) (j : nat) :
  NoDup d → d !! j = Some v → face v d = rotated (steps_to (length d) j) d.
Proof.
  intros Hnd Hj. rewrite (face_lookup v d j Hnd Hj).
  symmetry. apply rotated_steps_to. by eapply lookup_lt_Some.
Qed.

Lemma face_head (v : Z) (d : Deque) :
  NoDup d → v ∈ d → face v d !! 0%nat = Some v.
Proof.
  intros Hnd [j Hj]%list_elem_of_lookup_1.
  rewrite (face_lookup v d j Hnd Hj).
  pose proof (lookup_lt_Some _ _ _ Hj).
  rewrite lookup_app_l by (rewrite length_drop; lia).
  rewrite lookup_drop. by rewrite Nat.add_0_r.
Qed.

(** On a deque without repeated sides, the side at index [j] leads after
    [steps_to _ j] steps and not before. *)
Lemma first_lead (v : Z) (d : Deque) (j : nat) :
  NoDup d → d !! j = Some v →
  (∀ j', (j' < steps_to (length d) j)%nat →
         ∃ x, rotated j' d !! 0%nat = Some x ∧ x ≠ v) ∧
  rotated (steps_to (length d) j) d !! 0%nat = Some v.
Proof.
  intros Hnd Hj.
  pose proof (lookup_lt_Some _ _ _ Hj) as Hjn.
  pose proof (steps_to_lt _ _ Hjn) as Hk.
  split.
  - intros j' Hj'. unfold rotated.
    rewrite rotate_iter_head by lia.
    destruct (lookup_lt_is_Some_2 d ((length d - j') mod length d)) as [x Hx].
    { apply Nat.mod_upper_bound. lia. }
    exists x. split; [done|]. intros ->.
    pose proof (NoDup_lookup d _ _ v Hnd Hx Hj) as Heq.
    unfold steps_to in Hj'.
    destruct (decide (j = 0)%nat) as [->|?].
    { rewrite Nat.sub_0_r, Nat.Div0.mod_same in Hj'. lia. }
    rewrite Nat.mod_small in Hj' by lia.
    destruct (decide (j' = 0)%nat) as [->|?].
    { rewrite Nat.sub_0_r, Nat.Div0.mod_same in Heq. lia. }
    rewrite Nat.mod_small in Heq by lia. lia.
  - rewrite <-(face_rotated v d j Hnd Hj). apply face_head; [done|].
    by eapply list_elem_of_lookup_2.
Qed.

(** The loop on a deque without repeated sides: it stops with the wanted
    side in front, after fewer steps than the deque has sides. *)
Lemma align_piece_face (i : nat) (v : Z) (fuel : nat) (state : list Deque) (d : Deque) :
  state !! i = Some d → NoDup d → v ∈ d → (length d ≤ fuel)%nat →
  align_piece fuel state (Z.of_nat i) v = Ok (<[i := face v d]> state).
Proof.
  intros Hd Hnd [j Hj]%list_elem_of_lookup_1 Hfuel.
  pose proof (lookup_lt_Some _ _ _ Hj) as Hjn.
  pose proof (steps_to_lt _ _ Hjn) as Hk.
  destruct (first_lead v d j Hnd Hj) as [Hbefore Hlead].
  rewrite (face_rotated v d j Hnd Hj).
  apply align_piece_steps; [done..|lia].
Qed.

(** Without fuel for the last iteration the loop has not finished. *)
Lemma align_piece_short (i : nat) (v : Z) (k fuel : nat) (state : list Deque) (d : Deque) :
  state !! i = Some d →
  (∀ j, (j < k)%nat → ∃ x, rotated j d !! 0%nat = Some x ∧ x ≠ v) →
  (fuel ≤ k)%nat →
  align_piece fuel state (Z.of_nat i) v = OutOfFuel.
Proof.
  revert k state d.
  induction fuel as [|fuel IH]; intros k state d Hd Hbefore Hfuel; [done|].
  destruct (Hbefore 0%nat) as (x & Hx & Hxv); [lia|].
  simpl. rewrite (getitem_lookup _ _ _ Hd). simpl.
  rewrite (getitem_head d x Hx). simpl.
  rewrite bool_decide_eq_false_2 by done.
  rewrite (rotate_at_nat _ _ _ Hd). simpl.
  apply (IH (pred k) _ (rotate d)).
  - apply list_lookup_insert_eq. by eapply lookup_lt_Some.
  - intros j Hj. rewrite rotated_rotate. apply Hbefore. lia.
  - lia.
Qed.

Lemma align_piece_face_Z (i : Z) (v : Z) (fuel : nat) (state : list Deque) (d : Deque) :
  0 ≤ i → state !! Z.to_nat i = Some d → NoDup d → v ∈ d →
  (length d ≤ fuel)%nat →
  align_piece fuel state i v = Ok (<[Z.to_nat i := face v d]> state).
Proof.
  intros Hi Hd Hnd Hv Hfuel.
  rewrite <-(Z2Nat.id i) at 1 by done. by apply align_piece_face.
Qed.

(** ** Nuts with each marking once *)

Lemma markings_once_length (d : list Z) : markings_once d → length d = 6%nat.
Proof. intros H. by rewrite (Permutation_length H). Qed.

Lemma markings_once_NoDup (d : list Z) : markings_once d → NoDup d.
Proof.
  intros H. unfold markings_once in H. rewrite H.
  apply (bool_decide_unpack _). by vm_compute.
Qed.

Lemma markings_once_elem_of (d : list Z) (v : Z) :
  markings_once d → v ∈ d ↔ 1 ≤ v ≤ 6.
Proof.
  intros H. unfold markings_once in H. rewrite H.
  rewrite !elem_of_cons, elem_of_nil. lia.
Qed.

Lemma markings_once_lookup (d : list Z) (i : nat) (v : Z) :
  markings_once d → d !! i = Some v → 1 ≤ v ≤ 6.
Proof.
  intros H Hi. apply (markings_once_elem_of d v H).
  by eapply list_elem_of_lookup_2.
Qed.

Lemma markings_once_rotate (d : list Z) : markings_once d → markings_once (rotate d).
Proof. unfold markings_once. by rewrite rotate_Permutation. Qed.

Lemma markings_once_rotated (k : nat) (d : list Z) :
  markings_once d → markings_once (rotated k d).
Proof. unfold markings_once, rotated. by rewrite rotate_iter_Permutation. Qed.

Lemma pieces_markings_once : Forall markings_once pieces.
Proof.
  unfold markings_once. apply (bool_decide_unpack _). by vm_compute.
Qed.

(** ** Alignment of a whole board *)

Lemma range_outer : range 1 NUM_PIECES = [1; 2; 3; 4; 5; 6].
Proof. reflexivity. Qed.

Lemma range_sides : range 0 NUM_SIDES = [0; 1; 2; 3; 4; 5].
Proof. reflexivity. Qed.

Lemma range_pieces : range 0 NUM_PIECES = [0; 1; 2; 3; 4; 5; 6].
Proof. reflexivity. Qed.

(** A board of seven nuts, spelled out. *)
Lemma board_inv (state : list Deque) :
  length state = 7%nat →
  ∃ c d1 d2 d3 d4 d5 d6, state = [c; d1; d2; d3; d4; d5; d6].
Proof.
  intros H. do 7 (destruct state as [|? state]; [done|]).
  destruct state; [|done]. by eauto 10.
Qed.

Lemma sides_inv (d : list Z) :
  length d = 6%nat → ∃ a b c e f g, d = [a; b; c; e; f; g].
Proof.
  intros H. do 6 (destruct d as [|? d]; [done|]).
  destruct d; [|done]. by eauto 10.
Qed.

(** With fuel for six iterations of the inner loop, alignment of a board
    of nuts that carry each marking once ends on the [aligned] board. *)
Lemma align_to_center_aligned (fuel : nat) (state : list Deque) :
  length state = 7%nat → Forall markings_once state → (6 ≤ fuel)%nat →
  align_to_center fuel state = Ok (aligned state).
Proof.
  intros Hlen Hall Hfuel.
  destruct (board_inv state Hlen) as (c & d1 & d2 & d3 & d4 & d5 & d6 & ->).
  repeat match goal with
         | H : Forall _ (_ :: _) |- _ => apply Forall_cons in H as [? H]
         end.
  destruct (sides_inv c (markings_once_length c ltac:(done)))
    as (c0 & c1 & c2 & c3 & c4 & c5 & ->).
  unfold align_to_center. rewrite range_outer.
  change (getitem [[c0; c1; c2; c3; c4; c5]; d1; d2; d3; d4; d5; d6] 0)
    with (Ok [c0; c1; c2; c3; c4; c5]).
  simpl mbind. unfold align_from.
  repeat
    match goal with
    | |- context [align_piece fuel ?st ?i ?v] =>
        let d := eval cbv in (default [] (st !! Z.to_nat i)) in
        rewrite (align_piece_face_Z i v fuel st d);
        [ simpl mbind; simpl (<[_ := _]> _)
        | lia
        | reflexivity
        | by apply markings_once_NoDup
        | apply markings_once_elem_of; [done|];
          apply (markings_once_lookup [c0; c1; c2; c3; c4; c5] (Z.to_nat (i - 1)));
          [done|reflexivity]
        | rewrite markings_once_length by done; lia ]
    end.
  reflexivity.
Qed.

(** ** The check *)

Lemma adjacent_cases (lead : nat) (state : list Deque) :
  adjacent lead state ↔
    Forall (λ i, ∃ a : Z, state !! i ≫= (.!! 5%nat) = Some a ∧
                          state !! neighbour i ≫= (.!! lead) = Some a)
           [1; 2; 3; 4; 5; 6]%nat.
Proof.
  rewrite Forall_forall. unfold adjacent. split; intros H i Hi; apply H.
  - rewrite !elem_of_cons, elem_of_nil in Hi. lia.
  - rewrite !elem_of_cons, elem_of_nil. lia.
Qed.

Lemma check_total (state : list Deque) :
  length state = 7%nat → Forall (λ d, length d = 6%nat) state →
  ∃ b : bool, check state = Ok b.
Proof.
  intros Hlen Hall.
  destruct (board_inv state Hlen) as (c & d1 & d2 & d3 & d4 & d5 & d6 & ->).
  repeat match goal with
         | H : Forall _ (_ :: _) |- _ => apply Forall_cons in H as [? H]
         end.
  repeat match goal with
         | H : length ?d = 6%nat |- _ =>
             destruct (sides_inv d H) as (? & ? & ? & ? & ? & ? & ->); clear H
         end.
  unfold check. rewrite range_outer. simpl.
  repeat (case_bool_decide; simpl; [|by exists false]).
  by exists true.
Qed.

(** ** The aligned turn of a nut is the only one *)

Lemma face_is_rotation (v : Z) (d : Deque) :
  NoDup d → v ∈ d → is_rotation d (face v d).
Proof.
  intros Hnd [j Hj]%list_elem_of_lookup_1.
  exists (steps_to (length d) j). by apply face_rotated.
Qed.

Lemma rotated_mod (k : nat) (d : Deque) :
  rotated k d = rotated (k mod length d) d.
Proof. apply rotate_iter_mod. Qed.

Lemma rotated_head_face (k : nat) (v : Z) (d : Deque) :
  NoDup d → rotated k d !! 0%nat = Some v → rotated k d = face v d.
Proof.
  intros Hnd Hhead.
  assert (length d ≠ 0%nat) as Hn.
  { intros Hn. apply nil_length_inv in Hn as ->.
    apply lookup_lt_Some in Hhead. unfold rotated in Hhead.
    rewrite rotate_iter_length in Hhead. simpl in Hhead. lia. }
  rewrite rotated_mod in Hhead |- *.
  pose proof (Nat.mod_upper_bound k (length d) Hn) as Hk.
  set (k' := (k `mod` length d)%nat) in *.
  unfold rotated in Hhead. rewrite rotate_iter_head in Hhead by done.
  rewrite (face_rotated v d _ Hnd Hhead). f_equal.
  unfold steps_to.
  destruct (decide (k' = 0)%nat) as [->|Hk0].
  - by rewrite Nat.sub_0_r, Nat.Div0.mod_same, Nat.sub_0_r, Nat.Div0.mod_same.
  - rewrite (Nat.mod_small (length d - k')) by lia.
    rewrite Nat.mod_small by lia. lia.
Qed.

Lemma is_rotation_head_unique (v : Z) (d d1 d2 : Deque) :
  NoDup d → is_rotation d d1 → is_rotation d d2 →
  d1 !! 0%nat = Some v → d2 !! 0%nat = Some v → d1 = d2.
Proof.
  intros Hnd [k1 ->] [k2 ->] H1 H2.
  by rewrite (rotated_head_face k1 v d), (rotated_head_face k2 v d).
Qed.

Lemma aligned_lookup_outer (c : Deque) (outer : list Deque) (i : nat) (d : Deque) (v : Z) :
  outer !! i = Some d → c !! i = Some v →
  aligned (c :: outer) !! S i = Some (face v d).
Proof.
  intros Hd Hv. simpl. rewrite list_lookup_imap, Hd. simpl. by rewrite Hv.
Qed.

(** ** The loop ends *)

(** C5. The [while True] loop of [align_to_center] ends: for a nut that
    carries each marking once, held at position [i] of the board, and a
    wanted marking [v] from 1 to 6, there is a number [k] of steps, below
    6, such that the loop makes exactly [k] calls of [rotate] and stops
    with [v] in front. It stops whenever it has fuel for [k + 1]
    iterations, and has not stopped with less. *)
Theorem align_piece_terminates (state : list Deque) (i : nat) (d : Deque) (v : Z) :
  state !! i = Some d → markings_once d → 1 ≤ v ≤ 6 →
  ∃ k : nat,
    (k < 6)%nat ∧
    rotated k d !! 0%nat = Some v ∧
    (∀ fuel, (k < fuel)%nat →
       align_piece fuel state (Z.of_nat i) v = Ok (<[i := rotated k d]> state)) ∧
    (∀ fuel, (fuel ≤ k)%nat →
       align_piece fuel state (Z.of_nat i) v = OutOfFuel).
Proof.
  intros Hd Hm Hv.
  pose proof (markings_once_NoDup d Hm) as Hnd.
  apply (markings_once_elem_of d v Hm) in Hv.
  apply list_elem_of_lookup_1 in Hv as [j Hj].
  destruct (first_lead v d j Hnd Hj) as [Hbefore Hlead].
  pose proof (steps_to_lt _ _ (lookup_lt_Some _ _ _ Hj)) as Hk.
  rewrite (markings_once_length d Hm) in *.
  exists (steps_to 6 j). split_and!; [done|done| |].
  - intros fuel Hfuel. by apply align_piece_steps.
  - intros fuel Hfuel. by eapply align_piece_short.
Qed.

Lemma align_piece_terminates_witness :
  ∃ k : nat,
    (k < 6)%nat ∧
    rotated k [1; 5; 3; 2; 6; 4] !! 0%nat = Some 3 ∧
    (∀ fuel, (k < fuel)%nat →
       align_piece fuel [[1; 2; 3; 4; 5; 6]; [1; 5; 3; 2; 6; 4]] (Z.of_nat 1) 3
       = Ok (<[1%nat := rotated k [1; 5; 3; 2; 6; 4]]>
               [[1; 2; 3; 4; 5; 6]; [1; 5; 3; 2; 6; 4]])) ∧
    (∀ fuel, (fuel ≤ k)%nat →
       align_piece fuel [[1; 2; 3; 4; 5; 6]; [1; 5; 3; 2; 6; 4]] (Z.of_nat 1) 3
       = OutOfFuel).
Proof.
  apply (align_piece_terminates
           [[1; 2; 3; 4; 5; 6]; [1; 5; 3; 2; 6; 4]] 1 [1; 5; 3; 2; 6; 4] 3).
  - reflexivity.
  - apply (bool_decide_unpack _). vm_compute. exact I.
  - lia.
Defined.

(** No turn by fewer than all the sides brings a deque without repeated
    sides back onto itself. *)
Lemma rotated_fixed_point (k : nat) (d : Deque) :
  NoDup d → (0 < k < length d)%nat → rotated k d ≠ d.
Proof.
  intros Hnd Hk Heq.
  assert (rotated k d !! 0%nat = d !! 0%nat) as Hhead by (by rewrite Heq).
  unfold rotated in Hhead. rewrite rotate_iter_head in Hhead by lia.
  rewrite Nat.mod_small in Hhead by lia.
  destruct (lookup_lt_is_Some_2 d 0) as [x Hx]; [lia|].
  rewrite Hx in Hhead.
  pose proof (NoDup_lookup d _ _ x Hnd Hhead Hx). lia.
Qed.

(** C7. Rotation of a piece of six sides has order 6: six single steps
    give the piece back; [r] steps followed by [6 - r] steps give it back;
    only the count modulo 6 matters, so that for any count [r] a further
    [6 - r mod 6] steps give the piece back; and when the six sides are
    different, no count strictly between 0 and 6 gives it back. *)
Theorem rotate_order_six (p : Deque) (r : nat) :
  length p = 6%nat →
  rotated 6 p = p ∧
  ((r ≤ 6)%nat → rotated (6 - r) (rotated r p) = p) ∧
  rotated r p = rotated (r mod 6) p ∧
  rotated (6 - r mod 6) (rotated r p) = p ∧
  (NoDup p → ∀ k, (0 < k < 6)%nat → rotated k p ≠ p).
Proof.
  intros Hlen.
  assert (rotated 6 p = p) as H6.
  { unfold rotated. rewrite <-Hlen. apply rotate_iter_full. }
  assert (rotated r p = rotated (r mod 6) p) as Hmod.
  { rewrite <-Hlen. apply rotated_mod. }
  split_and!; [done| |done| |].
  - intros Hr. unfold rotated in *. rewrite <-rotate_iter_add.
    by replace (6 - r + r)%nat with 6%nat by lia.
  - rewrite Hmod. unfold rotated in *. rewrite <-rotate_iter_add.
    pose proof (Nat.mod_upper_bound r 6).
    by replace (6 - r mod 6 + r mod 6)%nat with 6%nat by lia.
  - intros Hnd k Hk. apply rotated_fixed_point; [done|lia].
Qed.

Lemma rotate_order_six_witness :
  rotated 6 [1; 5; 3; 2; 6; 4] = [1; 5; 3; 2; 6; 4] ∧
  ((8 ≤ 6)%nat →
     rotated (6 - 8) (rotated 8 [1; 5; 3; 2; 6; 4]) = [1; 5; 3; 2; 6; 4]) ∧
  rotated 8 [1; 5; 3; 2; 6; 4] = rotated (8 mod 6) [1; 5; 3; 2; 6; 4] ∧
  rotated (6 - 8 mod 6) (rotated 8 [1; 5; 3; 2; 6; 4]) = [1; 5; 3; 2; 6; 4] ∧
  (NoDup [1; 5; 3; 2; 6; 4] →
   ∀ k, (0 < k < 6)%nat → rotated k [1; 5; 3; 2; 6; 4] ≠ [1; 5; 3; 2; 6; 4]).
Proof. apply (rotate_order_six [1; 5; 3; 2; 6; 4] 8). reflexivity. Defined.

(** C3. On a board of seven nuts that carry each marking once (every
    board built from the fixed pieces is one), [align_to_center] returns,
    given fuel for six iterations of its inner loop. It leaves the centre
    as it was, and every outer position [i] from 1 to 6 then holds a turn
    of the nut it held before, whose leading side (index 0) carries the
    marking of the centre at offset [i - 1]. That turn is the only turn
    of the nut with this leading side. *)
Theorem align_to_center_faces (fuel : nat) (state : list Deque) :
  length state = 7%nat → Forall markings_once state → (6 ≤ fuel)%nat →
  ∃ (state' : list Deque) (center : Deque),
    align_to_center fuel state = Ok state' ∧
    state !! 0%nat = Some center ∧
    state' !! 0%nat = Some center ∧
    ∀ i : nat, (1 ≤ i ≤ 6)%nat →
      ∃ (d d' : Deque) (v : Z),
        state !! i = Some d ∧
        state' !! i = Some d' ∧
        center !! (i - 1)%nat = Some v ∧
        d' !! 0%nat = Some v ∧
        is_rotation d d' ∧
        ∀ d'' : Deque, is_rotation d d'' → d'' !! 0%nat = Some v → d'' = d'.
Proof.
  intros Hlen Hall Hfuel.
  rewrite (align_to_center_aligned fuel state Hlen Hall Hfuel).
  destruct state as [|center outer]; [done|].
  apply Forall_cons in Hall as [Hc Hall].
  exists (aligned (center :: outer)), center. split_and!; [done..|].
  intros i Hi. destruct i as [|i]; [lia|]. simpl in Hlen.
  destruct (lookup_lt_is_Some_2 outer i) as [d Hd]; [lia|].
  destruct (lookup_lt_is_Some_2 center i) as [v Hv].
  { rewrite (markings_once_length center Hc). lia. }
  pose proof (Forall_lookup_1 _ _ _ _ Hall Hd) as Hm.
  pose proof (markings_once_NoDup d Hm) as Hnd.
  assert (v ∈ d) as Hvd.
  { apply (markings_once_elem_of d v Hm).
    by apply (markings_once_lookup center i). }
  exists d, (face v d), v. split_and!.
  - done.
  - by apply aligned_lookup_outer.
  - by rewrite Nat.sub_1_r.
  - by apply face_head.
  - by apply face_is_rotation.
  - intros d'' Hrot Hhead.
    apply (is_rotation_head_unique v d); auto using face_is_rotation, face_head.
Qed.

Lemma align_to_center_faces_witness :
  ∃ (state' : list Deque) (center : Deque),
    align_to_center 6 (init_state pieces) = Ok state' ∧
    init_state pieces !! 0%nat = Some center ∧
    state' !! 0%nat = Some center ∧
    ∀ i : nat, (1 ≤ i ≤ 6)%nat →
      ∃ (d d' : Deque) (v : Z),
        init_state pieces !! i = Some d ∧
        state' !! i = Some d' ∧
        center !! (i - 1)%nat = Some v ∧
        d' !! 0%nat = Some v ∧
        is_rotation d d' ∧
        ∀ d'' : Deque, is_rotation d d'' → d'' !! 0%nat = Some v → d'' = d'.
Proof.
  apply (align_to_center_faces 6 (init_state pieces)).
  - reflexivity.
  - apply (bool_decide_unpack _). vm_compute. exact I.
  - lia.
Defined.

(** ** Printing computations *)

Lemma io_bind_Ok {A B} (m : io A) (k : A → io B) (out : string) (a : A) :
  m = (out, Ok a) → m ≫= k = (out +:+ (k a).1, (k a).2).
Proof. by intros ->. Qed.

Lemma quiet_bind_Ok {A B} (a : A) (k : A → io B) : quiet (Ok a) ≫= k = k a.
Proof. unfold quiet, mbind, io_bind. simpl. by destruct (k a). Qed.

Lemma print_items_Ok (items : list Deque) : (print_items items).2 = Ok tt.
Proof.
  induction items as [|item items IH]; [done|].
  simpl. unfold mbind, io_bind. simpl. done.
Qed.

Lemma print_state_Ok (state : list Deque) : (print_state state).2 = Ok tt.
Proof.
  unfold print_state, mbind, io_bind. by rewrite print_items_Ok.
Qed.

Lemma print_state_bind {B} (state : list Deque) (k : unit → io B) :
  print_state state ≫= k = ((print_state state).1 +:+ (k tt).1, (k tt).2).
Proof.
  apply io_bind_Ok. pose proof (print_state_Ok state).
  by destruct (print_state state) as [? []]; simplify_eq/=.
Qed.

(** ** One pass over a board *)

Lemma well_formed_lengths (state : list Deque) :
  well_formed state → length state = 7%nat ∧ Forall (λ d, length d = 6%nat) state.
Proof.
  intros [Hlen Hall]. split; [done|].
  eapply Forall_impl; [done|]. apply markings_once_length.
Qed.

Lemma rotate_center_turn (state : list Deque) :
  state ≠ [] → rotate_center state = Ok (turn_center state).
Proof. by destruct state. Qed.

Lemma is_rotation_refl (d : Deque) : is_rotation d d.
Proof. by exists 0%nat. Qed.

Lemma is_rotation_trans (d1 d2 d3 : Deque) :
  is_rotation d1 d2 → is_rotation d2 d3 → is_rotation d1 d3.
Proof.
  intros [k1 ->] [k2 ->]. exists (k2 + k1)%nat.
  unfold rotated. by rewrite rotate_iter_add.
Qed.

Lemma is_rotation_rotate (d : Deque) : is_rotation d (rotate d).
Proof. by exists 1%nat. Qed.

Lemma is_rotation_markings_once (d d' : Deque) :
  is_rotation d d' → markings_once d → markings_once d'.
Proof. intros [k ->]. apply markings_once_rotated. Qed.

Lemma is_rotation_sym (d d' : Deque) : is_rotation d d' → is_rotation d' d.
Proof.
  intros [k ->]. exists (length d * k - k)%nat.
  unfold rotated. rewrite <-rotate_iter_add.
  destruct (decide (length d = 0)%nat) as [Hd|Hd].
  - apply nil_length_inv in Hd as ->. simpl.
    symmetry. apply nil_length_inv. by rewrite rotate_iter_length.
  - replace (length d * k - k + k)%nat with (k * length d)%nat by nia.
    by rewrite rotate_iter_mul.
Qed.

Lemma face_is_rotation_of (v : Z) (d d' : Deque) :
  NoDup d → v ∈ d → is_rotation d d' → face v d' = face v d.
Proof.
  intros Hnd Hv Hrot.
  assert (NoDup d') as Hnd'.
  { destruct Hrot as [k ->]. unfold rotated. by rewrite rotate_iter_Permutation. }
  assert (v ∈ d') as Hv'.
  { destruct Hrot as [k ->]. unfold rotated. by rewrite rotate_iter_Permutation. }
  apply (is_rotation_head_unique v d); [done| | |by apply face_head..].
  - eapply is_rotation_trans; [done|]. by apply face_is_rotation.
  - by apply face_is_rotation.
Qed.

(** ** Boards that hold the same nuts *)

Lemma same_nuts_refl (s : list Deque) : same_nuts s s.
Proof.
  split; [done|]. apply Forall2_same_length_lookup. split; [done|].
  intros i d d' H1 H2. simplify_eq. apply is_rotation_refl.
Qed.

Lemma same_nuts_trans (s1 s2 s3 : list Deque) :
  same_nuts s1 s2 → same_nuts s2 s3 → same_nuts s1 s3.
Proof.
  intros [Hh1 Ht1] [Hh2 Ht2]. split; [congruence|].
  eapply Forall2_trans; [|done..]. apply is_rotation_trans.
Qed.

Lemma same_nuts_turn_center (s s' : list Deque) :
  same_nuts s s' → same_nuts (turn_center s) (turn_center s').
Proof.
  intros [Hh Ht]. destruct s as [|c o], s' as [|c' o']; simplify_eq/=; [done|].
  by split.
Qed.

Lemma same_nuts_well_formed (s s' : list Deque) :
  same_nuts s s' → well_formed s → well_formed s'.
Proof.
  intros [Hh Ht] [Hlen Hall].
  destruct s as [|c o], s' as [|c' o']; simplify_eq/=.
  apply Forall_cons in Hall as [Hc Hall]. split.
  - simpl. rewrite <-(Forall2_length _ _ _ Ht). lia.
  - apply Forall_cons. split; [done|].
    clear Hlen. induction Ht as [|d d' o o' Hd Ht IH]; [done|].
    apply Forall_cons in Hall as [Hd1 Hall].
    apply Forall_cons. split; [|by apply IH].
    by eapply is_rotation_markings_once.
Qed.

Lemma well_formed_turn_center (s : list Deque) :
  well_formed s → well_formed (turn_center s).
Proof.
  intros [Hlen Hall]. destruct s as [|c o]; [done|].
  apply Forall_cons in Hall as [Hc Hall]. split; [done|].
  apply Forall_cons. split; [|done]. by apply markings_once_rotate.
Qed.

Lemma well_formed_iter_turn_center (r : nat) (s : list Deque) :
  well_formed s → well_formed (Nat.iter r turn_center s).
Proof.
  intros H. induction r as [|r IH]; [done|].
  simpl. by apply well_formed_turn_center.
Qed.

(** The outer nut at index [i] of a well-formed board can be turned to
    face the centre. *)
Lemma well_formed_outer (c : Deque) (o : list Deque) (i : nat) (d : Deque) :
  well_formed (c :: o) → o !! i = Some d →
  ∃ v, c !! i = Some v ∧ NoDup d ∧ v ∈ d.
Proof.
  intros [Hlen Hall] Hd. apply Forall_cons in Hall as [Hc Hall].
  pose proof (lookup_lt_Some _ _ _ Hd) as Hi. simpl in Hlen.
  destruct (lookup_lt_is_Some_2 c i) as [v Hv].
  { rewrite (markings_once_length c Hc). lia. }
  pose proof (Forall_lookup_1 _ _ _ _ Hall Hd) as Hm.
  exists v. split_and!; [done|by apply markings_once_NoDup|].
  apply (markings_once_elem_of d v Hm). by apply (markings_once_lookup c i).
Qed.

Lemma same_nuts_aligned (s : list Deque) : well_formed s → same_nuts s (aligned s).
Proof.
  intros Hwf. destruct s as [|c o]; [apply same_nuts_refl|].
  split; [done|]. simpl.
  apply Forall2_same_length_lookup. split; [by rewrite length_imap|].
  intros i d d' Hd Hd'. rewrite list_lookup_imap, Hd in Hd'. simpl in Hd'.
  destruct (well_formed_outer c o i d Hwf Hd) as (v & Hv & Hnd & Hvd).
  rewrite Hv in Hd'. simplify_eq/=. by apply face_is_rotation.
Qed.

(** Alignment does not depend on how the outer nuts were turned. *)
Lemma aligned_same_nuts (s s' : list Deque) :
  same_nuts s s' → well_formed s → aligned s' = aligned s.
Proof.
  intros [Hh Ht] Hwf. destruct s as [|c o], s' as [|c' o']; simplify_eq/=; [done|].
  f_equal. apply list_eq. intros i. rewrite !list_lookup_imap.
  destruct (o !! i) as [d|] eqn:Hd.
  - destruct (Forall2_lookup_l _ _ _ _ _ Ht Hd) as (d' & Hd' & Hrot).
    rewrite Hd'. simpl. f_equal.
    destruct (well_formed_outer c' o i d Hwf Hd) as (v & Hv & Hnd & Hvd).
    rewrite Hv. simpl. by apply face_is_rotation_of.
  - apply lookup_ge_None in Hd. rewrite (Forall2_length _ _ _ Ht) in Hd.
    apply lookup_ge_None in Hd. by rewrite Hd.
Qed.

Lemma well_formed_aligned (s : list Deque) : well_formed s → well_formed (aligned s).
Proof. intros H. eapply same_nuts_well_formed; [|done]. by apply same_nuts_aligned. Qed.

(** ** The passes over one layout *)

Lemma check_well_formed (state : list Deque) :
  well_formed state → ∃ b : bool, check state = Ok b.
Proof.
  intros [Hlen Hall]%well_formed_lengths. by apply check_total.
Qed.

Lemma append_nil_l (s : string) : "" +:+ s = s.
Proof. done. Qed.

Lemma append_cons (a : Ascii.ascii) (s1 s2 : string) :
  String a s1 +:+ s2 = String a (s1 +:+ s2).
Proof. done. Qed.

Lemma append_nil_r (s : string) : s +:+ "" = s.
Proof. induction s as [|a s IH]; [done|]. by rewrite append_cons, IH. Qed.

Lemma append_assoc (s1 s2 s3 : string) : (s1 +:+ s2) +:+ s3 = s1 +:+ s2 +:+ s3.
Proof. induction s1 as [|a s1 IH]; [done|]. by rewrite !append_cons, IH. Qed.

Lemma passes_unfold (fuel : nat) (state : list Deque) (x : Z) (rounds : list Z) :
  passes fuel state (x :: rounds) =
    (state1 ← quiet (align_to_center fuel state);
     found ← quiet (check state1);
     _ ← (if found : bool then print_state state1 else mret tt);
     state2 ← quiet (rotate_center state1);
     passes fuel state2 rounds).
Proof. done. Qed.

(** A pass aligns, writes its report, and hands the board on with the
    centre turned one step. *)
Lemma passes_cons (fuel : nat) (state : list Deque) (x : Z) (rounds : list Z) :
  well_formed state → (6 ≤ fuel)%nat →
  passes fuel state (x :: rounds) =
    (report (aligned state) +:+ (passes fuel (turn_center (aligned state)) rounds).1,
     (passes fuel (turn_center (aligned state)) rounds).2).
Proof.
  intros Hwf Hfuel. rewrite passes_unfold.
  rewrite (align_to_center_aligned fuel state) by (done || apply Hwf).
  rewrite quiet_bind_Ok.
  pose proof (well_formed_aligned state Hwf) as Hwf'.
  destruct (check_well_formed _ Hwf') as [b Hb].
  unfold report. rewrite Hb, quiet_bind_Ok.
  assert (aligned state ≠ []) as Hne.
  { intros Heq. destruct Hwf' as [Hl _]. by rewrite Heq in Hl. }
  destruct b.
  - rewrite print_state_bind, (rotate_center_turn _ Hne), quiet_bind_Ok. done.
  - unfold mret at 1, io_ret. rewrite io_bind_Ok with (out := "") (a := tt) by done.
    rewrite (rotate_center_turn _ Hne), quiet_bind_Ok. done.
Qed.

(** All the passes, told from the board [s] they start from: pass [r]
    reports the aligned board with the centre of [s] turned [r] steps. *)
Lemma passes_boards (fuel : nat) (s : list Deque) (rounds : list Z) :
  well_formed s → (6 ≤ fuel)%nat →
  ∀ (r0 : nat) (state : list Deque) (x : Z),
    same_nuts (Nat.iter r0 turn_center s) state →
    passes fuel state (x :: rounds) =
      (written (report <$>
                 ((λ r, aligned (Nat.iter r turn_center s)) <$> seq r0 (S (length rounds)))),
       Ok (turn_center (aligned (Nat.iter (r0 + length rounds) turn_center s)))).
Proof.
  intros Hwf Hfuel.
  induction rounds as [|y rounds IH]; intros r0 state x Hsame.
  - pose proof (well_formed_iter_turn_center r0 s Hwf) as Hwf0.
    rewrite passes_cons by (done || by eapply same_nuts_well_formed).
    rewrite (aligned_same_nuts _ _ Hsame Hwf0). simpl.
    by rewrite Nat.add_0_r.
  - pose proof (well_formed_iter_turn_center r0 s Hwf) as Hwf0.
    rewrite passes_cons by (done || by eapply same_nuts_well_formed).
    rewrite (aligned_same_nuts _ _ Hsame Hwf0).
    rewrite (IH (S r0)).
    + replace (r0 + length (y :: rounds))%nat with (S r0 + length rounds)%nat
        by (simpl; lia).
      done.
    + simpl. apply same_nuts_turn_center. by apply same_nuts_aligned.
Qed.

Lemma iter_turn_center (r : nat) (c : Deque) (o : list Deque) :
  Nat.iter r turn_center (c :: o) = rotated r c :: o.
Proof. induction r as [|r IH]; [done|]. simpl. by rewrite IH. Qed.

(** What trying a layout writes and leaves. *)
Lemma try_layout_boards (fuel : nat) (layout : list Piece) :
  well_formed layout → (6 ≤ fuel)%nat →
  try_layout fuel layout =
    (written (report <$> (board_at layout <$> seq 0 6)),
     Ok (turn_center (board_at layout 5))).
Proof.
  intros Hwf Hfuel. unfold try_layout. rewrite range_sides.
  assert (init_state layout = layout) as Hinit by apply list_fmap_id.
  rewrite (passes_boards fuel layout _ Hwf Hfuel 0).
  - unfold board_at. by rewrite Hinit.
  - rewrite Hinit. apply same_nuts_refl.
Qed.

(** ** Permutations *)

Section permutations.
Context {A : Type}.
Implicit Types (l : list A) (p : A * list A).

Lemma picks_fst l : (itertools.picks l).*1 = l.
Proof.
  induction l as [|x l IH]; [done|].
  simpl. f_equal. rewrite <-list_fmap_compose.
  rewrite <-IH at 2. by apply list_fmap_ext.
Qed.

Lemma picks_length l : length (itertools.picks l) = length l.
Proof. by rewrite <-(picks_fst l) at 2; rewrite length_fmap. Qed.

Lemma picks_Permutation l p : p ∈ itertools.picks l → p.1 :: p.2 ≡ₚ l.
Proof.
  revert p. induction l as [|x l IH]; intros p Hp; [by inv Hp|].
  simpl in Hp. apply elem_of_cons in Hp as [->|Hp]; [done|].
  apply list_elem_of_fmap in Hp as (q & -> & Hq). simpl.
  rewrite Permutation_swap. f_equiv. by apply IH.
Qed.

Lemma picks_rest_length l p :
  p ∈ itertools.picks l → S (length p.2) = length l.
Proof. intros Hp. by rewrite <-(Permutation_length (picks_Permutation l p Hp)). Qed.

(** Two picks of the same element out of a list without repeats are the
    same pick. *)
Lemma picks_inj l p1 p2 :
  NoDup l → p1 ∈ itertools.picks l → p2 ∈ itertools.picks l →
  p1.1 = p2.1 → p1 = p2.
Proof.
  intros Hnd H1 H2 Heq.
  apply list_elem_of_lookup_1 in H1 as [i1 H1].
  apply list_elem_of_lookup_1 in H2 as [i2 H2].
  assert (i1 = i2) as <-; [|congruence].
  rewrite <-(picks_fst l) in Hnd.
  apply (NoDup_lookup _ i1 i2 p1.1 Hnd).
  - by rewrite list_lookup_fmap, H1.
  - by rewrite list_lookup_fmap, H2, Heq.
Qed.

Lemma picks_NoDup l : NoDup l → NoDup (itertools.picks l).
Proof. intros Hnd. apply (NoDup_fmap_1 fst). by rewrite picks_fst. Qed.

Lemma permutations_of_length_length (n : nat) l :
  length l = n → length (itertools.permutations_of_length n l) = fact n.
Proof.
  revert l. induction n as [|n IH]; intros l Hl; [done|].
  simpl itertools.permutations_of_length.
  assert (∀ ps : list (A * list A),
            Forall (λ p, length p.2 = n) ps →
            length (ps ≫= λ p, (p.1 ::.) <$> itertools.permutations_of_length n p.2)
            = (length ps * fact n)%nat) as Hsum.
  { induction 1 as [|p ps Hp _ IHps]; [done|].
    rewrite bind_cons, length_app, length_fmap, IHps, (IH _ Hp). simpl. lia. }
  rewrite Hsum, picks_length, Hl; [simpl; lia|].
  apply Forall_forall. intros p Hp.
  pose proof (picks_rest_length l p Hp). lia.
Qed.

Lemma permutations_of_length_Permutation (n : nat) l (q : list A) :
  length l = n → q ∈ itertools.permutations_of_length n l → q ≡ₚ l.
Proof.
  revert l q. induction n as [|n IH]; intros l q Hl Hq.
  - apply nil_length_inv in Hl as ->. by apply list_elem_of_singleton in Hq as ->.
  - simpl in Hq. apply list_elem_of_bind in Hq as (p & Hq & Hp).
    apply list_elem_of_fmap in Hq as (q' & -> & Hq').
    rewrite <-(picks_Permutation l p Hp). f_equiv.
    apply IH; [|done]. pose proof (picks_rest_length l p Hp). lia.
Qed.

Lemma permutations_of_length_NoDup (n : nat) l :
  length l = n → NoDup l → NoDup (itertools.permutations_of_length n l).
Proof.
  revert l. induction n as [|n IH]; intros l Hl Hnd.
  - apply NoDup_singleton.
  - simpl. apply NoDup_bind.
    + intros p1 p2 q H1 H2 Hq1 Hq2.
      apply list_elem_of_fmap in Hq1 as (q1 & -> & _).
      apply list_elem_of_fmap in Hq2 as (q2 & [= Hhead _] & _).
      by apply (picks_inj l).
    + intros p Hp. apply (NoDup_fmap_2 _).
      pose proof (picks_rest_length l p Hp).
      apply IH; [lia|].
      pose proof (picks_Permutation l p Hp) as Hperm.
      rewrite <-Hperm in Hnd. by apply NoDup_cons in Hnd as [_ ?].
    + by apply picks_NoDup.
Qed.

Lemma permutations_length l :
  length (itertools.permutations l) = fact (length l).
Proof. by apply permutations_of_length_length. Qed.

Lemma permutations_Permutation l (q : list A) :
  q ∈ itertools.permutations l → q ≡ₚ l.
Proof. by apply permutations_of_length_Permutation. Qed.

Lemma permutations_NoDup l : NoDup l → NoDup (itertools.permutations l).
Proof. by apply permutations_of_length_NoDup. Qed.

End permutations.

(** ** The layouts *)

Lemma yield_trailers_fmap (center first : Piece) (rest : list Piece)
    (trailers : list (list Piece)) :
  yield_trailers center (first :: rest) trailers =
    ((λ trailer, center :: first :: trailer) <$> trailers, Ok tt).
Proof.
  induction trailers as [|t ts IH]; [done|].
  simpl. rewrite IH. done.
Qed.

Lemma necklace_perms_round_layouts (ps : list Piece) (i : nat) :
  (i < length ps)%nat → (2 ≤ length ps)%nat →
  necklace_perms_round ps (Z.of_nat i) = (round_layouts ps i, Ok tt).
Proof.
  intros Hi Hlen. unfold necklace_perms_round, round_layouts, delitem.
  destruct (lookup_lt_is_Some_2 ps i Hi) as [center Hc].
  rewrite getitem_nat, Hc. simpl.
  unfold index_of. rewrite bool_decide_eq_false_2 by lia. rewrite Nat2Z.id.
  pose proof (length_delete ps i (ltac:(eauto))) as Hdel.
  destruct (delete i ps) as [|first rest]; [simpl in Hdel; lia|].
  simpl drop. rewrite drop_0. apply yield_trailers_fmap.
Qed.

Lemma necklace_perms_from_layouts (ps : list Piece) (idxs : list nat) :
  (2 ≤ length ps)%nat → Forall (λ i, (i < length ps)%nat) idxs →
  necklace_perms_from ps (Z.of_nat <$> idxs) = (idxs ≫= round_layouts ps, Ok tt).
Proof.
  intros Hlen. induction 1 as [|i idxs Hi _ IH]; [done|].
  rewrite fmap_cons. simpl necklace_perms_from.
  rewrite (necklace_perms_round_layouts ps i Hi Hlen), IH. done.
Qed.

Lemma round_layouts_inv (ps : list Piece) (i : nat) (q : list Piece) :
  q ∈ round_layouts ps i →
  ∃ center first rest trailer,
    ps !! i = Some center ∧ delete i ps = first :: rest ∧
    trailer ∈ itertools.permutations rest ∧ q = center :: first :: trailer.
Proof.
  unfold round_layouts. intros Hq.
  destruct (ps !! i) as [center|]; [|by inv Hq].
  destruct (delete i ps) as [|first rest]; [by inv Hq|].
  apply list_elem_of_fmap in Hq as (trailer & -> & Ht). by eauto 10.
Qed.

Lemma round_layouts_Permutation (ps : list Piece) (i : nat) (q : list Piece) :
  q ∈ round_layouts ps i → q ≡ₚ ps.
Proof.
  intros (center & first & rest & trailer & Hc & Hdel & Ht & ->)%round_layouts_inv.
  rewrite (delete_Permutation ps i center Hc), Hdel.
  by rewrite (permutations_Permutation rest trailer Ht).
Qed.

Lemma round_layouts_NoDup (ps : list Piece) (i : nat) :
  NoDup ps → NoDup (round_layouts ps i).
Proof.
  intros Hnd. unfold round_layouts.
  destruct (ps !! i) as [center|] eqn:Hc; [|apply NoDup_nil_2].
  destruct (delete i ps) as [|first rest] eqn:Hdel; [apply NoDup_nil_2|].
  apply NoDup_fmap_2; [by intros t1 t2 [= ->]|].
  apply permutations_NoDup.
  rewrite (delete_Permutation ps i center Hc), Hdel in Hnd.
  apply NoDup_cons in Hnd as [_ Hnd]. by apply NoDup_cons in Hnd as [_ Hnd].
Qed.

Lemma round_layouts_length (ps : list Piece) (i : nat) :
  (i < length ps)%nat → (2 ≤ length ps)%nat →
  length (round_layouts ps i) = fact (length ps - 2).
Proof.
  intros Hi Hlen. unfold round_layouts.
  destruct (lookup_lt_is_Some_2 ps i Hi) as [center Hc]. rewrite Hc.
  pose proof (length_delete ps i (ltac:(eauto))) as Hdel.
  destruct (delete i ps) as [|first rest]; [simpl in Hdel; lia|].
  rewrite length_fmap, permutations_length. f_equal. simpl in Hdel. lia.
Qed.

(** The generator on any seven pieces. *)
Lemma necklace_perms_layouts (ps : list Piece) :
  length ps = 7%nat →
  necklace_perms ps = (seq 0 7 ≫= round_layouts ps, Ok tt).
Proof.
  intros Hlen. unfold necklace_perms. rewrite range_pieces.
  apply (necklace_perms_from_layouts ps (seq 0 7)); [lia|].
  apply Forall_forall. intros i Hi%elem_of_seq. lia.
Qed.

Lemma layouts_length (ps : list Piece) :
  length ps = 7%nat → length (seq 0 7 ≫= round_layouts ps) = 840%nat.
Proof.
  intros Hlen.
  assert (∀ idxs, Forall (λ i, (i < length ps)%nat) idxs →
            length (idxs ≫= round_layouts ps) = (length idxs * 120)%nat) as Hsum.
  { induction 1 as [|i idxs Hi _ IH]; [done|].
    rewrite bind_cons, length_app, IH, round_layouts_length by lia.
    rewrite Hlen. simpl. lia. }
  rewrite Hsum; [done|].
  apply Forall_forall. intros i Hi%elem_of_seq. lia.
Qed.

Lemma layouts_Permutation (ps : list Piece) (idxs : list nat) :
  Forall (λ q, q ≡ₚ ps) (idxs ≫= round_layouts ps).
Proof.
  apply Forall_bind, Forall_forall. intros i _.
  apply Forall_forall. intros q. apply round_layouts_Permutation.
Qed.

Lemma layouts_NoDup (ps : list Piece) (idxs : list nat) :
  NoDup ps → NoDup idxs → NoDup (idxs ≫= round_layouts ps).
Proof.
  intros Hnd Hidxs. apply NoDup_bind; [|by auto using round_layouts_NoDup|done].
  intros i1 i2 q _ _ H1 H2.
  apply round_layouts_inv in H1 as (c1 & ? & ? & ? & Hc1 & _ & _ & ->).
  apply round_layouts_inv in H2 as (c2 & ? & ? & ? & Hc2 & _ & _ & [= <- _ _]).
  by apply (NoDup_lookup ps i1 i2 c1).
Qed.

Lemma pieces_NoDup : NoDup pieces.
Proof. apply (bool_decide_unpack _). by vm_compute. Qed.

Lemma Permutation_pieces_well_formed (layout : list Piece) :
  layout ≡ₚ pieces → well_formed layout.
Proof.
  intros Hperm. split.
  - by rewrite (Permutation_length Hperm).
  - rewrite Hperm. apply pieces_markings_once.
Qed.

(** Every candidate is a board of seven nuts with each marking once. *)
Lemma candidates_well_formed : Forall well_formed (necklace_perms pieces).1.
Proof.
  rewrite necklace_perms_layouts by done. cbn [fst snd].
  eapply Forall_impl; [apply layouts_Permutation|].
  apply Permutation_pieces_well_formed.
Qed.

(** C2. On the seven fixed pieces [necklace_perms] ends without raising,
    after it has yielded exactly 840 layouts. Every layout is a
    rearrangement of the seven pieces, which are all different: it puts
    each piece on exactly one of the seven positions. No layout is yielded
    twice. *)
Theorem necklace_perms_840 :
  (necklace_perms pieces).2 = Ok tt ∧
  length (necklace_perms pieces).1 = 840%nat ∧
  840%nat = (7 * fact 5)%nat ∧
  NoDup pieces ∧
  Forall (λ layout, layout ≡ₚ pieces ∧ length layout = 7%nat) (necklace_perms pieces).1 ∧
  NoDup (necklace_perms pieces).1.
Proof.
  rewrite necklace_perms_layouts by done. cbn [fst snd].
  split_and!.
  - done.
  - by apply layouts_length.
  - done.
  - apply pieces_NoDup.
  - eapply Forall_impl; [apply layouts_Permutation|].
    intros layout Hperm. split; [done|]. by rewrite (Permutation_length Hperm).
  - apply layouts_NoDup; [apply pieces_NoDup|apply NoDup_seq].
Qed.

(** ** The whole search *)

Lemma board_at_S (layout : list Piece) (r : nat) :
  well_formed layout →
  board_at layout (S r) = aligned (turn_center (board_at layout r)).
Proof.
  intros Hwf. unfold board_at.
  assert (init_state layout = layout) as -> by apply list_fmap_id.
  pose proof (well_formed_iter_turn_center r layout Hwf) as Hwf'.
  symmetry. apply aligned_same_nuts.
  - simpl. apply same_nuts_turn_center. by apply same_nuts_aligned.
  - simpl. by apply well_formed_turn_center.
Qed.

Lemma well_formed_board_at (layout : list Piece) (r : nat) :
  well_formed layout → well_formed (board_at layout r).
Proof.
  intros Hwf. unfold board_at.
  assert (init_state layout = layout) as -> by apply list_fmap_id.
  by apply well_formed_aligned, well_formed_iter_turn_center.
Qed.

Lemma main_from_reports (fuel : nat) (layouts : list (list Piece)) :
  Forall well_formed layouts → (6 ≤ fuel)%nat →
  main_from fuel layouts = (written (layout_report <$> layouts), Ok tt).
Proof.
  intros Hall Hfuel. induction Hall as [|layout layouts Hwf _ IH]; [done|].
  simpl main_from.
  rewrite (io_bind_Ok _ _ _ _ (try_layout_boards fuel layout Hwf Hfuel)).
  by rewrite IH.
Qed.

Lemma main_reports (fuel : nat) :
  (6 ≤ fuel)%nat →
  main fuel = (written (layout_report <$> (necklace_perms pieces).1), Ok tt).
Proof.
  intros Hfuel. unfold main.
  rewrite (io_bind_Ok _ _ _ _
             (main_from_reports fuel _ candidates_well_formed Hfuel)).
  rewrite necklace_perms_layouts by done. cbn [fst snd quiet].
  by rewrite append_nil_r.
Qed.

Lemma reports_solution_line :
  written (layout_report <$> (necklace_perms pieces).1) = solution_line.
Proof. by vm_compute. Qed.

(** C6. The search over the fixed pieces, given fuel for six iterations
    of the alignment loop, ends without raising and has printed one
    solution line. The text does not depend on anything else: every run
    prints this same line. *)
Theorem main_prints_solution (fuel : nat) :
  (6 ≤ fuel)%nat → main fuel = (solution_line, Ok tt).
Proof. intros Hfuel. by rewrite main_reports, reports_solution_line. Qed.

Lemma main_prints_solution_witness : main 6 = (solution_line, Ok tt).
Proof. apply (main_prints_solution 6). lia. Defined.

(** C4. For every candidate layout, and fuel for six iterations of the
    alignment loop, [main] makes exactly six passes and then leaves the
    layout. Pass 0 aligns the fresh state; after every pass the centre is
    turned one step by [rotate_center], and the next pass aligns again.
    The board of pass [r] is [board_at layout r]. Every pass checks its
    board, and no pass is skipped when an earlier one succeeded: the text
    written is, for [r] from 0 to 5 in this order, the line of the board
    of pass [r] when its check succeeds and nothing when it fails. *)
Theorem try_layout_six_passes (fuel : nat) (layout : list Piece) :
  layout ∈ (necklace_perms pieces).1 → (6 ≤ fuel)%nat →
  align_to_center fuel (init_state layout) = Ok (board_at layout 0) ∧
  (∀ r : nat,
     rotate_center (board_at layout r) = Ok (turn_center (board_at layout r)) ∧
     align_to_center fuel (turn_center (board_at layout r))
       = Ok (board_at layout (S r))) ∧
  (∀ r : nat, ∃ found : bool,
     check (board_at layout r) = Ok found ∧
     report (board_at layout r)
       = if found then (print_state (board_at layout r)).1 else "") ∧
  try_layout fuel layout =
    (written (report <$> (board_at layout <$> [0; 1; 2; 3; 4; 5]%nat)),
     Ok (turn_center (board_at layout 5))).
Proof.
  intros Hin Hfuel.
  pose proof candidates_well_formed as Hall.
  rewrite Forall_forall in Hall. pose proof (Hall layout Hin) as Hwf.
  split_and!.
  - unfold board_at. simpl Nat.iter.
    assert (init_state layout = layout) as -> by apply list_fmap_id.
    apply align_to_center_aligned; [apply Hwf..|done].
  - intros r. pose proof (well_formed_board_at layout r Hwf) as Hwfr.
    split.
    + apply rotate_center_turn. intros Heq. destruct Hwfr as [Hl _].
      by rewrite Heq in Hl.
    + rewrite (board_at_S layout r Hwf).
      pose proof (well_formed_turn_center _ Hwfr) as Hwft.
      apply align_to_center_aligned; [apply Hwft..|done].
  - intros r. pose proof (well_formed_board_at layout r Hwf) as Hwfr.
    destruct (check_well_formed _ Hwfr) as [b Hb].
    exists b. split; [done|]. unfold report. by rewrite Hb.
  - by apply try_layout_boards.
Qed.

Lemma try_layout_six_passes_witness :
  align_to_center 6 (init_state pieces) = Ok (board_at pieces 0) ∧
  (∀ r : nat,
     rotate_center (board_at pieces r) = Ok (turn_center (board_at pieces r)) ∧
     align_to_center 6 (turn_center (board_at pieces r))
       = Ok (board_at pieces (S r))) ∧
  (∀ r : nat, ∃ found : bool,
     check (board_at pieces r) = Ok found ∧
     report (board_at pieces r)
       = if found then (print_state (board_at pieces r)).1 else "") ∧
  try_layout 6 pieces =
    (written (report <$> (board_at pieces <$> [0; 1; 2; 3; 4; 5]%nat)),
     Ok (turn_center (board_at pieces 5))).
Proof.
  apply (try_layout_six_passes 6 pieces).
  - vm_compute. apply list_elem_of_here.
  - lia.
Defined.

(** C1, as amended. On a board of seven nuts with six sides each, [check]
    returns without raising, and it returns [True] exactly when, for every
    outer position [i] from 1 to 6, side 5 of the nut at [i] carries the
    marking of side 1 of the nut at the next outer position, the
    neighbour of position 6 being position 1. Side 0 is not looked at: it
    faces the centre. *)
Theorem check_compares_rim (state : list Deque) :
  length state = 7%nat → Forall (λ d, length d = 6%nat) state →
  ∃ b : bool, check state = Ok b ∧ (b = true ↔ adjacent 1 state).
Proof.
  intros Hlen Hall.
  destruct (board_inv state Hlen) as (c & d1 & d2 & d3 & d4 & d5 & d6 & ->).
  apply Forall_cons in Hall as [_ Hall].
  apply Forall_cons in Hall as [H1 Hall]. apply Forall_cons in Hall as [H2 Hall].
  apply Forall_cons in Hall as [H3 Hall]. apply Forall_cons in Hall as [H4 Hall].
  apply Forall_cons in Hall as [H5 Hall]. apply Forall_cons in Hall as [H6 _].
  destruct (sides_inv d1 H1) as (a0 & a1 & a2 & a3 & a4 & a5 & ->).
  destruct (sides_inv d2 H2) as (b0 & b1 & b2 & b3 & b4 & b5 & ->).
  destruct (sides_inv d3 H3) as (e0 & e1 & e2 & e3 & e4 & e5 & ->).
  destruct (sides_inv d4 H4) as (f0 & f1 & f2 & f3 & f4 & f5 & ->).
  destruct (sides_inv d5 H5) as (g0 & g1 & g2 & g3 & g4 & g5 & ->).
  destruct (sides_inv d6 H6) as (h0 & h1 & h2 & h3 & h4 & h5 & ->).
  clear H1 H2 H3 H4 H5 H6 Hlen.
  match goal with
  | |- context [adjacent 1 ?st] =>
      assert (adjacent 1 st ↔
              a5 = b1 ∧ b5 = e1 ∧ e5 = f1 ∧ f5 = g1 ∧ g5 = h1 ∧ h5 = a1)
        as Hadj
  end.
  { rewrite adjacent_cases, !Forall_cons, Forall_nil. simpl. split.
    - intros (Ha & Hb & He & Hf & Hg & Hh & _).
      destruct Ha as (? & ? & ?), Hb as (? & ? & ?), He as (? & ? & ?),
        Hf as (? & ? & ?), Hg as (? & ? & ?), Hh as (? & ? & ?).
      by simplify_eq.
    - intros (-> & -> & -> & -> & -> & ->). repeat split; by eexists. }
  unfold check. rewrite range_outer. simpl.
  repeat (case_bool_decide; simpl;
          [|exists false; split; [done|]; rewrite Hadj; split; [done|tauto]]).
  exists true. split; [done|]. rewrite Hadj. tauto.
Qed.

Lemma check_compares_rim_witness :
  ∃ b : bool, check solved_board = Ok b ∧ (b = true ↔ adjacent 1 solved_board).
Proof.
  apply (check_compares_rim solved_board).
  - reflexivity.
  - apply (bool_decide_unpack _). vm_compute. exact I.
Defined.

(** C1, as stated, fails on the solved board: [check] returns [True] on
    it, although side 5 of the nut at position 1 is marked 4 and side 0 of
    the nut at position 2 is marked 3. *)
Lemma check_not_leading_side :
  length solved_board = 7%nat ∧
  Forall (λ d, length d = 6%nat) solved_board ∧
  ¬ (check solved_board = Ok true ↔ adjacent 0 solved_board).
Proof.
  split_and!; [done|by repeat constructor|].
  intros [Hto _].
  destruct (Hto eq_refl 1%nat) as (a & Ha & Hb); [lia|].
  vm_compute in Ha, Hb. congruence.
Qed.

(** ** The printed line *)

Lemma chars_append (s1 s2 : string) : chars (s1 +:+ s2) = chars s1 ++ chars s2.
Proof.
  induction s1 as [|a s1 IH]; [done|]. rewrite append_cons. simpl. by rewrite IH.
Qed.

Lemma one_line_append (s1 s2 : string) :
  one_line (s1 +:+ s2) ↔ one_line s1 ∧ one_line s2.
Proof. unfold one_line. rewrite chars_append, not_elem_of_app. done. Qed.

Lemma one_line_pretty_N_go (x : N) (s : string) :
  one_line s → one_line (pretty_N_go x s).
Proof.
  revert s. induction (N.lt_wf_0 x) as [x _ IH]; intros s Hs.
  destruct (decide (0 < x)%N) as [Hx|Hx].
  - rewrite pretty_N_go_step by done. apply IH.
    + by apply N.div_lt.
    + unfold one_line in *. simpl. apply not_elem_of_cons. split; [|done].
      unfold pretty_N_char. by repeat case_match.
  - assert (x = 0%N) as -> by lia. by rewrite pretty_N_go_0.
Qed.

Lemma one_line_pretty_N (x : N) : one_line (pretty x).
Proof.
  unfold pretty, pretty_N. case_decide.
  - unfold one_line. simpl. rewrite elem_of_cons, elem_of_nil. by intros [|].
  - apply one_line_pretty_N_go. unfold one_line. simpl. apply not_elem_of_nil.
Qed.

(** The decimal text of an int has no line break. *)
Lemma one_line_pretty_Z (z : Z) : one_line (pretty z).
Proof.
  destruct z as [|x|x]; unfold pretty, pretty_Z.
  - unfold one_line. simpl. rewrite elem_of_cons, elem_of_nil. by intros [|].
  - apply (one_line_pretty_N (N.pos x)).
  - apply one_line_append. split; [|apply (one_line_pretty_N (N.pos x))].
    unfold one_line. simpl. rewrite elem_of_cons, elem_of_nil. by intros [|].
Qed.

Lemma one_line_concat (sep : string) (ls : list string) :
  one_line sep → Forall one_line ls → one_line (String.concat sep ls).
Proof.
  intros Hsep. induction 1 as [|x ls Hx Hls IH].
  - unfold one_line. simpl. apply not_elem_of_nil.
  - destruct ls as [|y ls]; [done|].
    change (one_line (x +:+ sep +:+ String.concat sep (y :: ls))).
    rewrite !one_line_append. by split_and!.
Qed.

Lemma one_line_str_list (d : list Z) : one_line (str_list d).
Proof.
  unfold str_list. rewrite !one_line_append. split_and!.
  - unfold one_line. simpl. rewrite elem_of_cons, elem_of_nil. by intros [|].
  - apply one_line_concat.
    + unfold one_line. simpl. rewrite !elem_of_cons, elem_of_nil.
      by intros [|[|]].
    + apply Forall_fmap, Forall_forall. intros z _. apply one_line_pretty_Z.
  - unfold one_line. simpl. rewrite elem_of_cons, elem_of_nil. by intros [|].
Qed.

Lemma print_items_written (items : list Deque) :
  print_items items = (written (str_list <$> items), Ok tt).
Proof.
  induction items as [|item items IH]; [done|].
  change (print_items (item :: items))
    with (print (str_list item) "" ≫= λ _, print_items items).
  rewrite io_bind_Ok with (out := str_list item +:+ "") (a := tt) by done.
  rewrite IH, append_nil_r. done.
Qed.

Lemma print_state_written (state : list Deque) :
  print_state state = (written (str_list <$> state) +:+ newline, Ok tt).
Proof.
  unfold print_state.
  rewrite (io_bind_Ok _ _ _ _ (print_items_written state)). done.
Qed.

Lemma board_at_is_rotation (layout : list Piece) (r : nat) :
  well_formed layout → Forall2 is_rotation layout (board_at layout r).
Proof.
  intros Hwf. unfold board_at.
  assert (init_state layout = layout) as -> by apply list_fmap_id.
  pose proof (same_nuts_aligned _ (well_formed_iter_turn_center r layout Hwf))
    as [Hhead Htail].
  destruct layout as [|c o]; [by destruct Hwf|].
  rewrite iter_turn_center in *.
  destruct (aligned (rotated r c :: o)) as [|c' o']; [done|].
  simplify_eq/=. constructor; [by exists r|done].
Qed.

Lemma str_list_six (a b c e f g : Z) :
  str_list [a; b; c; e; f; g] =
    "[" +:+ pretty a +:+ ", " +:+ pretty b +:+ ", " +:+ pretty c +:+ ", " +:+
    pretty e +:+ ", " +:+ pretty f +:+ ", " +:+ pretty g +:+ "]".
Proof. unfold str_list. simpl. by rewrite !append_assoc. Qed.

(** C8. The board that a pass of [main] hands to [print_state] is the
    current board of the layout: seven deques of six sides, each a turn of
    the piece that the layout put there. [print_state] writes it as one
    line: the seven deques in the order of their positions, each as its
    six sides from the leading one on, in brackets and separated by a
    comma and a space, with nothing between the brackets of two deques,
    then a line break, and no line break before. *)
Theorem reported_line_format (layout : list Piece) (r : nat) :
  layout ∈ (necklace_perms pieces).1 →
  ∃ d0 d1 d2 d3 d4 d5 d6 : Deque,
    board_at layout r = [d0; d1; d2; d3; d4; d5; d6] ∧
    Forall2 is_rotation layout [d0; d1; d2; d3; d4; d5; d6] ∧
    Forall (λ d, ∃ a b c e f g : Z,
              d = [a; b; c; e; f; g] ∧
              str_list d =
                "[" +:+ pretty a +:+ ", " +:+ pretty b +:+ ", " +:+ pretty c +:+
                ", " +:+ pretty e +:+ ", " +:+ pretty f +:+ ", " +:+ pretty g +:+ "]")
           [d0; d1; d2; d3; d4; d5; d6] ∧
    print_state (board_at layout r) =
      (str_list d0 +:+ str_list d1 +:+ str_list d2 +:+ str_list d3 +:+
       str_list d4 +:+ str_list d5 +:+ str_list d6 +:+ newline, Ok tt) ∧
    one_line (str_list d0 +:+ str_list d1 +:+ str_list d2 +:+ str_list d3 +:+
              str_list d4 +:+ str_list d5 +:+ str_list d6).
Proof.
  intros Hin.
  pose proof candidates_well_formed as Hall.
  rewrite Forall_forall in Hall. pose proof (Hall layout Hin) as Hwf.
  pose proof (well_formed_board_at layout r Hwf) as Hwfr.
  pose proof (board_at_is_rotation layout r Hwf) as Hrot.
  destruct (well_formed_lengths _ Hwfr) as [Hlen Hsix].
  destruct (board_inv _ Hlen) as (d0 & d1 & d2 & d3 & d4 & d5 & d6 & Heq).
  rewrite Heq in *. exists d0, d1, d2, d3, d4, d5, d6. split_and!.
  - done.
  - done.
  - eapply Forall_impl; [done|]. intros d Hd.
    destruct (sides_inv d Hd) as (a & b & c & e & f & g & ->).
    exists a, b, c, e, f, g. split; [done|]. apply str_list_six.
  - rewrite print_state_written. simpl. by rewrite !append_assoc, append_nil_l.
  - rewrite !one_line_append. split_and!; apply one_line_str_list.
Qed.

Lemma reported_line_format_witness :
  ∃ d0 d1 d2 d3 d4 d5 d6 : Deque,
    board_at pieces 2 = [d0; d1; d2; d3; d4; d5; d6] ∧
    Forall2 is_rotation pieces [d0; d1; d2; d3; d4; d5; d6] ∧
    Forall (λ d, ∃ a b c e f g : Z,
              d = [a; b; c; e; f; g] ∧
              str_list d =
                "[" +:+ pretty a +:+ ", " +:+ pretty b +:+ ", " +:+ pretty c +:+
                ", " +:+ pretty e +:+ ", " +:+ pretty f +:+ ", " +:+ pretty g +:+ "]")
           [d0; d1; d2; d3; d4; d5; d6] ∧
    print_state (board_at pieces 2) =
      (str_list d0 +:+ str_list d1 +:+ str_list d2 +:+ str_list d3 +:+
       str_list d4 +:+ str_list d5 +:+ str_list d6 +:+ newline, Ok tt) ∧
    one_line (str_list d0 +:+ str_list d1 +:+ str_list d2 +:+ str_list d3 +:+
              str_list d4 +:+ str_list d5 +:+ str_list d6).
Proof.
  apply (reported_line_format pieces 2).
  vm_compute. apply list_elem_of_here.
Defined.

(** ** Every position keeps its nut *)

Lemma rotate_at_is_rotation (layout : list Piece) (state state' : list Deque) (i : Z) :
  Forall2 is_rotation layout state → rotate_at state i = Ok state' →
  Forall2 is_rotation layout state'.
Proof.
  intros Hinv Hrot. unfold rotate_at in Hrot.
  destruct (getitem state i) as [d| |] eqn:Hd; simplify_eq/=.
  set (j := Z.to_nat (index_of state i)).
  assert (state !! j = Some d) as Hj.
  { unfold getitem in Hd. fold j in Hd. case_bool_decide; [done|].
    by destruct (state !! j); simplify_eq. }
  apply Forall2_same_length_lookup. split.
  - rewrite length_insert. by eapply Forall2_length.
  - intros n p d' Hp Hd'.
    destruct (decide (n = j)) as [->|Hne].
    + rewrite list_lookup_insert_eq in Hd' by (by eapply lookup_lt_Some).
      simplify_eq. eapply is_rotation_trans; [|apply is_rotation_rotate].
      by eapply Forall2_lookup_lr.
    + rewrite list_lookup_insert_ne in Hd' by done.
      by eapply Forall2_lookup_lr.
Qed.

Lemma align_piece_is_rotation (layout : list Piece) (fuel : nat)
    (state state' : list Deque) (i v : Z) :
  Forall2 is_rotation layout state → align_piece fuel state i v = Ok state' →
  Forall2 is_rotation layout state'.
Proof.
  revert state. induction fuel as [|fuel IH]; intros state Hinv Hal; [done|].
  simpl in Hal.
  destruct (getitem state i) as [d| |]; simplify_eq/=.
  destruct (getitem d 0) as [side| |]; simplify_eq/=.
  case_bool_decide; simplify_eq/=; [done|].
  destruct (rotate_at state i) as [state1| |] eqn:Hrot; simplify_eq/=.
  eapply IH; [|done]. by eapply rotate_at_is_rotation.
Qed.

Lemma align_from_is_rotation (layout : list Piece) (fuel : nat) (center : Deque)
    (idxs : list Z) (state state' : list Deque) :
  Forall2 is_rotation layout state → align_from fuel center state idxs = Ok state' →
  Forall2 is_rotation layout state'.
Proof.
  revert state. induction idxs as [|i idxs IH]; intros state Hinv Hal.
  - by simplify_eq/=.
  - simpl in Hal.
    destruct (getitem center (get_center_side i)) as [v| |]; simplify_eq/=.
    destruct (align_piece fuel state i v) as [state1| |] eqn:Hp; simplify_eq/=.
    eapply IH; [|done]. by eapply align_piece_is_rotation.
Qed.

Lemma align_to_center_is_rotation (layout : list Piece) (fuel : nat)
    (state state' : list Deque) :
  Forall2 is_rotation layout state → align_to_center fuel state = Ok state' →
  Forall2 is_rotation layout state'.
Proof.
  intros Hinv Hal. unfold align_to_center in Hal.
  destruct (getitem state 0) as [center| |]; [|done..].
  eapply align_from_is_rotation; [done|exact Hal].
Qed.

Lemma io_bind_Ok_inv {A B} (m : io A) (k : A → io B) (b : B) :
  (m ≫= k).2 = Ok b → ∃ a, m.2 = Ok a ∧ (k a).2 = Ok b.
Proof.
  unfold mbind, io_bind. destruct m as [o [a| |]]; simpl; [eauto|done..].
Qed.

Lemma passes_is_rotation (layout : list Piece) (fuel : nat) (rounds : list Z)
    (state state' : list Deque) :
  Forall2 is_rotation layout state → (passes fuel state rounds).2 = Ok state' →
  Forall2 is_rotation layout state'.
Proof.
  revert state. induction rounds as [|x rounds IH]; intros state Hinv Hp.
  - by injection Hp as <-.
  - rewrite passes_unfold in Hp.
    apply io_bind_Ok_inv in Hp as (state1 & Hal & Hp).
    apply io_bind_Ok_inv in Hp as (found & _ & Hp).
    apply io_bind_Ok_inv in Hp as (_ & _ & Hp).
    apply io_bind_Ok_inv in Hp as (state2 & Hrot & Hp).
    eapply IH; [|done].
    eapply rotate_at_is_rotation; [|exact Hrot].
    eapply align_to_center_is_rotation; [done|exact Hal].
Qed.

(** C10. Through the passes over a layout every position of the board
    holds a turn of the piece that the layout put there: the same sides
    in the same cyclic order. [init_state] starts with the pieces
    themselves. Every single [rotate] on a deque of the board, which is
    the only way in which the program changes a board, keeps the property;
    so do [align_to_center] and [rotate_center] as a whole, and so does
    the whole loop over the passes when it ends. [check] and
    [print_state] only read the board. *)
Theorem board_holds_rotations (layout : list Piece) :
  Forall2 is_rotation layout (init_state layout) ∧
  (∀ (state state' : list Deque) (i : Z),
     Forall2 is_rotation layout state → rotate_at state i = Ok state' →
     Forall2 is_rotation layout state') ∧
  (∀ (fuel : nat) (state state' : list Deque),
     Forall2 is_rotation layout state → align_to_center fuel state = Ok state' →
     Forall2 is_rotation layout state') ∧
  (∀ state state' : list Deque,
     Forall2 is_rotation layout state → rotate_center state = Ok state' →
     Forall2 is_rotation layout state') ∧
  (∀ (fuel : nat) (out : string) (state' : list Deque),
     try_layout fuel layout = (out, Ok state') →
     Forall2 is_rotation layout state').
Proof.
  assert (Forall2 is_rotation layout (init_state layout)) as Hinit.
  { unfold init_state. rewrite list_fmap_id.
    apply Forall2_same_length_lookup. split; [done|].
    intros i d d' H1 H2. simplify_eq. apply is_rotation_refl. }
  split_and!.
  - done.
  - intros state state' i. apply rotate_at_is_rotation.
  - intros fuel state state'. apply align_to_center_is_rotation.
  - intros state state'. apply rotate_at_is_rotation.
  - intros fuel out state' Htry. eapply passes_is_rotation; [done|].
    unfold try_layout in Htry. by rewrite Htry.
Qed.

Lemma board_holds_rotations_witness :
  ∃ (out : string) (state' : list Deque),
    try_layout 6 pieces = (out, Ok state') ∧ Forall2 is_rotation pieces state'.
Proof.
  eexists _, _. split.
  - vm_compute. reflexivity.
  - apply (board_holds_rotations pieces) with (fuel := 6%nat) (out := "").
    vm_compute. reflexivity.
Defined.

(** ** Computations on the store *)

Lemma run_bind_Ok {A B} (m : run A) (k : A → run B) (h h1 : heap)
    (out : string) (a : A) :
  m h = (out, h1, Ok a) →
  (m ≫= k) h = (out +:+ (k a h1).1.1, (k a h1).1.2, (k a h1).2).
Proof. intros Hm. unfold mbind, run_bind. by rewrite Hm. Qed.

Lemma run_bind_Raise {A B} (m : run A) (k : A → run B) (h h1 : heap)
    (out : string) (e : exn) :
  m h = (out, h1, Raise e) → (m ≫= k) h = (out, h1, Raise e).
Proof. intros Hm. unfold mbind, run_bind. by rewrite Hm. Qed.

Lemma run_bind_OutOfFuel {A B} (m : run A) (k : A → run B) (h h1 : heap)
    (out : string) :
  m h = (out, h1, OutOfFuel) → (m ≫= k) h = (out, h1, OutOfFuel).
Proof. intros Hm. unfold mbind, run_bind. by rewrite Hm. Qed.

(** A step that does not print. *)
Lemma run_bind_silent {A B} (m : run A) (k : A → run B) (h h1 : heap) (a : A) :
  m h = ("", h1, Ok a) → (m ≫= k) h = k a h1.
Proof.
  intros Hm. rewrite (run_bind_Ok _ _ _ _ _ _ Hm).
  by destruct (k a h1) as [[??]?].
Qed.

(** A step that neither prints nor changes the store. *)
Lemma run_bind_quiet {A B} (m : run A) (k : A → run B) (h : heap) (a : A) :
  m h = ("", h, Ok a) → (m ≫= k) h = k a h.
Proof.
  intros Hm. rewrite (run_bind_Ok _ _ _ _ _ _ Hm).
  by destruct (k a h) as [[??]?].
Qed.

Lemma changes_only_refl (ls : list loc) (h : heap) : changes_only ls h h.
Proof. by intros l _. Qed.

Lemma changes_only_trans (ls : list loc) (h1 h2 h3 : heap) :
  changes_only ls h1 h2 → changes_only ls h2 h3 → changes_only ls h1 h3.
Proof. intros H12 H23 l Hl. by rewrite H23, H12. Qed.

Lemma changes_only_insert (ls : list loc) (h : heap) (l : loc) (o : obj) :
  l ∈ ls → changes_only ls h (<[l := o]> h).
Proof. intros Hl l' Hl'. apply lookup_insert_ne. by intros ->. Qed.

(** ** Reading a board on the store *)

Lemma index_of_length {A B} (l1 : list A) (l2 : list B) (i : Z) :
  length l1 = length l2 → index_of l1 i = index_of l2 i.
Proof. intros H. unfold index_of. by rewrite H. Qed.

(** Indexing two lists of the same length goes wrong together. *)
Lemma getitem_Forall2 {A B} (R : A → B → Prop) (l1 : list A) (l2 : list B) (i : Z) :
  Forall2 R l1 l2 →
  (∃ a b, getitem l1 i = Ok a ∧ getitem l2 i = Ok b ∧ R a b ∧
          l1 !! Z.to_nat (index_of l1 i) = Some a ∧
          l2 !! Z.to_nat (index_of l1 i) = Some b) ∨
  (getitem l1 i = Raise IndexError ∧ getitem l2 i = Raise IndexError).
Proof.
  intros HR. pose proof (Forall2_length _ _ _ HR) as Hlen.
  unfold getitem. rewrite <-(index_of_length l1 l2 i Hlen).
  case_bool_decide; [by right|].
  destruct (l1 !! Z.to_nat (index_of l1 i)) as [a|] eqn:Ha.
  - destruct (Forall2_lookup_l _ _ _ _ _ HR Ha) as (b & Hb & Hab).
    rewrite Hb. left. by exists a, b.
  - right. apply lookup_ge_None in Ha. rewrite Hlen in Ha.
    apply lookup_ge_None in Ha. by rewrite Ha.
Qed.

Lemma read_lookup (h : heap) (l : loc) (o : obj) :
  h !! l = Some o → store.read l h = ("", h, Ok o).
Proof. intros H. unfold store.read. by rewrite H. Qed.

Lemma getitem_ref_lookup (h : heap) (l : loc) (ls : list loc) (i : Z) :
  h !! l = Some (PyRefs ls) → store.getitem_ref l i h = ("", h, getitem ls i).
Proof.
  intros H. unfold store.getitem_ref.
  by rewrite (run_bind_quiet _ _ _ _ (read_lookup h l _ H)).
Qed.

Lemma getitem_int_deque (h : heap) (d : loc) (xs : list Z) (i : Z) :
  h !! d = Some (PyDeque xs) → store.getitem_int d i h = ("", h, getitem xs i).
Proof.
  intros H. unfold store.getitem_int.
  by rewrite (run_bind_quiet _ _ _ _ (read_lookup h d _ H)).
Qed.

Lemma rotate_deque (h : heap) (d : loc) (xs : list Z) :
  h !! d = Some (PyDeque xs) →
  store.rotate d h = ("", <[d := PyDeque (rotate xs)]> h, Ok tt).
Proof.
  intros H. unfold store.rotate.
  by rewrite (run_bind_quiet _ _ _ _ (read_lookup h d _ H)).
Qed.

(** ** The board on the store follows the board as a value *)

Lemma holds_state_insert (h : heap) (s : loc) (ds : list loc) (st : list Deque)
    (j : nat) (d : loc) (ys : list Z) :
  holds_state h s ds st → ds !! j = Some d →
  holds_state (<[d := PyDeque ys]> h) s ds (<[j := ys]> st).
Proof.
  intros (Hs & Hnd & Hall) Hd.
  apply NoDup_cons in Hnd as [Hsds Hnd].
  assert (d ≠ s) as Hds.
  { intros ->. apply Hsds. by eapply list_elem_of_lookup_2. }
  split_and!.
  - by rewrite lookup_insert_ne.
  - by apply NoDup_cons.
  - apply Forall2_same_length_lookup. split.
    + rewrite length_insert. by eapply Forall2_length.
    + intros n d' xs' Hd' Hxs'.
      destruct (decide (n = j)) as [->|Hne].
      * assert (d' = d) as -> by congruence.
        rewrite list_lookup_insert_eq in Hxs'.
        { simplify_eq. by rewrite lookup_insert_eq. }
        rewrite <-(Forall2_length _ _ _ Hall). by eapply lookup_lt_Some.
      * rewrite list_lookup_insert_ne in Hxs' by done.
        assert (d' ≠ d) as Hdd.
        { intros ->. by pose proof (NoDup_lookup ds n j d Hnd Hd' Hd). }
        rewrite lookup_insert_ne by congruence.
        apply (Forall2_lookup_lr _ _ _ _ _ _ Hall Hd' Hxs').
Qed.

Lemma simulates_quiet (s : loc) (ds : list loc) (h h' : heap) (m : run unit)
    (r : result (list Deque)) :
  m h = ("", h', ended r) → changes_only ds h h' →
  (∀ st', r = Ok st' → holds_state h' s ds st') →
  simulates s ds h m (quiet r).
Proof. intros Hm Hch Hst. by exists h'. Qed.

(** One computation after the other. *)
Lemma simulates_bind (s : loc) (ds : list loc) (h : heap) (m : run unit)
    (k : unit → run unit) (p : io (list Deque)) (q : list Deque → io (list Deque)) :
  simulates s ds h m p →
  (∀ h' st', p.2 = Ok st' → holds_state h' s ds st' →
             simulates s ds h' (k tt) (q st')) →
  simulates s ds h (m ≫= k) (p ≫= q).
Proof.
  intros (h1 & Hm & Hch & Hst) Hk.
  destruct p as [out [st1| |]]; simpl in *.
  - destruct (Hk h1 st1 eq_refl (Hst st1 eq_refl)) as (h2 & Hk2 & Hch2 & Hst2).
    exists h2. split_and!.
    + rewrite (run_bind_Ok _ _ _ _ _ _ Hm), Hk2. done.
    + by eapply changes_only_trans.
    + done.
  - exists h1. split_and!; [|done..].
    by rewrite (run_bind_Raise _ _ _ _ _ _ Hm).
  - exists h1. split_and!; [|done..].
    by rewrite (run_bind_OutOfFuel _ _ _ _ _ Hm).
Qed.

(** [state[i].rotate()] *)
Lemma rotate_at_simulates (s : loc) (ds : list loc) (h : heap)
    (st : list Deque) (i : Z) :
  holds_state h s ds st →
  simulates s ds h (piece ← store.getitem_ref s i; store.rotate piece)
            (quiet (rotate_at st i)).
Proof.
  intros Hst. pose proof Hst as (Hs & Hnd & Hall).
  unfold rotate_at.
  destruct (getitem_Forall2 _ ds st i Hall)
    as [(d & xs & Hd & Hxs & Hdxs & Hld & Hlxs)|[Hd Hxs]].
  - rewrite Hxs. simpl.
    apply simulates_quiet with (h' := <[d := PyDeque (rotate xs)]> h).
    + rewrite (run_bind_quiet _ _ _ d (eq_trans (getitem_ref_lookup h s ds i Hs)
                                          (f_equal _ Hd))).
      by apply rotate_deque.
    + apply changes_only_insert. by eapply list_elem_of_lookup_2.
    + intros st' [= <-].
      rewrite <-(index_of_length ds st i (Forall2_length _ _ _ Hall)).
      by apply holds_state_insert.
  - rewrite Hxs. simpl.
    apply simulates_quiet with (h' := h).
    + apply run_bind_Raise. by rewrite (getitem_ref_lookup h s ds i Hs), Hd.
    + apply changes_only_refl.
    + done.
Qed.

Lemma rotate_center_simulates (s : loc) (ds : list loc) (h : heap) (st : list Deque) :
  holds_state h s ds st →
  simulates s ds h (store.rotate_center s) (quiet (rotate_center st)).
Proof. apply rotate_at_simulates. Qed.

Lemma simulates_ext (s : loc) (ds : list loc) (h : heap) (m m' : run unit)
    (p : io (list Deque)) :
  m h = m' h → simulates s ds h m' p → simulates s ds h m p.
Proof. intros Heq (h' & Hm & H). exists h'. by rewrite Heq. Qed.

Lemma simulates_Raise (s : loc) (ds : list loc) (h : heap) (m : run unit) (e : exn) :
  m h = ("", h, Raise e) → simulates s ds h m (quiet (Raise e)).
Proof.
  intros Hm. apply simulates_quiet with (h' := h); [done|apply changes_only_refl|done].
Qed.

(** The [while True] loop on the store. *)
Lemma align_piece_simulates (s : loc) (ds : list loc) (i v : Z) (fuel : nat) :
  ∀ (h : heap) (st : list Deque),
    holds_state h s ds st →
    simulates s ds h (store.align_piece fuel s i v) (quiet (align_piece fuel st i v)).
Proof.
  induction fuel as [|fuel IH]; intros h st Hst.
  - apply simulates_quiet with (h' := h); [done|apply changes_only_refl|done].
  - pose proof Hst as (Hs & Hnd & Hall).
    simpl store.align_piece. simpl align_piece.
    pose proof (getitem_ref_lookup h s ds i Hs) as Href.
    destruct (getitem_Forall2 _ ds st i Hall)
      as [(d & xs & Hd & Hxs & Hdxs & Hld & Hlxs)|[Hd Hxs]].
    + rewrite Hxs. rewrite Hd in Href. simpl.
      eapply simulates_ext; [by apply (run_bind_quiet _ _ _ d)|]. cbv beta.
      pose proof (getitem_int_deque h d xs 0 Hdxs) as Hside.
      destruct (getitem xs 0) as [side| |] eqn:Hget; simpl.
      * eapply simulates_ext; [by apply (run_bind_quiet _ _ _ side)|]. cbv beta.
        case_bool_decide.
        { apply simulates_quiet with (h' := h); [done|apply changes_only_refl|].
          by intros st' [= <-]. }
        assert (simulates s ds h (store.rotate d) (quiet (rotate_at st i))) as Hrot.
        { eapply simulates_ext; [|by apply rotate_at_simulates].
          symmetry. by apply (run_bind_quiet _ _ _ d). }
        pose proof (simulates_bind s ds h (store.rotate d)
                      (λ _, store.align_piece fuel s i v)
                      (quiet (rotate_at st i))
                      (λ st1, quiet (align_piece fuel st1 i v))
                      Hrot (λ h1 st1 _ Hst1, IH h1 st1 Hst1)) as Hb.
        destruct (rotate_at st i) as [st1| |]; exact Hb.
      * apply simulates_Raise. by apply run_bind_Raise.
      * apply simulates_quiet with (h' := h); [|apply changes_only_refl|done].
        by apply run_bind_OutOfFuel.
    + rewrite Hxs. rewrite Hd in Href. simpl.
      apply simulates_Raise. by apply run_bind_Raise.
Qed.

Lemma rotate_at_keeps_center (st st' : list Deque) (i : Z) :
  1 ≤ i → rotate_at st i = Ok st' → st' !! 0%nat = st !! 0%nat.
Proof.
  intros Hi Hrot. unfold rotate_at in Hrot.
  destruct (getitem st i) as [d| |]; simplify_eq/=.
  apply list_lookup_insert_ne. unfold index_of.
  rewrite bool_decide_eq_false_2 by lia. lia.
Qed.

Lemma align_piece_keeps_center (fuel : nat) (st st' : list Deque) (i v : Z) :
  1 ≤ i → align_piece fuel st i v = Ok st' → st' !! 0%nat = st !! 0%nat.
Proof.
  intros Hi. revert st. induction fuel as [|fuel IH]; intros st Hal; [done|].
  simpl in Hal.
  destruct (getitem st i) as [d| |]; simplify_eq/=.
  destruct (getitem d 0) as [side| |]; simplify_eq/=.
  case_bool_decide; simplify_eq/=; [done|].
  destruct (rotate_at st i) as [st1| |] eqn:Hrot; simplify_eq/=.
  rewrite (IH _ Hal). by eapply rotate_at_keeps_center.
Qed.

Lemma holds_state_lookup (h : heap) (s : loc) (ds : list loc) (st : list Deque)
    (j : nat) (d : loc) (xs : list Z) :
  holds_state h s ds st → ds !! j = Some d → st !! j = Some xs →
  h !! d = Some (PyDeque xs).
Proof. intros (_ & _ & Hall) Hd Hxs. apply (Forall2_lookup_lr _ _ _ _ _ _ Hall Hd Hxs). Qed.

(** The [for pieceidx] loop on the store. The name [center] holds the
    location of the deque at position 0; as the loop turns outer nuts
    only, what is read through it is what the centre held at the start. *)
Lemma align_from_simulates (s : loc) (ds : list loc) (fuel : nat) (c : loc)
    (center : Deque) (idxs : list Z) :
  Forall (λ i, 1 ≤ i) idxs → ds !! 0%nat = Some c →
  ∀ (h : heap) (st : list Deque),
    holds_state h s ds st → st !! 0%nat = Some center →
    simulates s ds h (store.align_from fuel c s idxs)
              (quiet (align_from fuel center st idxs)).
Proof.
  intros Hidxs Hc. induction Hidxs as [|i idxs Hi _ IH]; intros h st Hst Hcenter.
  - apply simulates_quiet with (h' := h); [done|apply changes_only_refl|].
    by intros st' [= <-].
  - simpl store.align_from. simpl align_from.
    pose proof (getitem_int_deque h c center (get_center_side i)
                  (holds_state_lookup _ _ _ _ _ _ _ Hst Hc Hcenter)) as Hstop.
    destruct (getitem center (get_center_side i)) as [v| |]; simpl.
    + eapply simulates_ext; [by apply (run_bind_quiet _ _ _ v)|]. cbv beta.
      pose proof (simulates_bind s ds h (store.align_piece fuel s i v)
                    (λ _, store.align_from fuel c s idxs)
                    (quiet (align_piece fuel st i v))
                    (λ st1, quiet (align_from fuel center st1 idxs))
                    (align_piece_simulates s ds i v fuel h st Hst)) as Hb.
      destruct (align_piece fuel st i v) as [st1| |] eqn:Hal;
        apply Hb; intros h1 st' Hst' Hh1; simplify_eq/=.
      apply IH; [done|].
      by rewrite (align_piece_keeps_center fuel st st' i v Hi Hal).
    + apply simulates_Raise. by apply run_bind_Raise.
    + apply simulates_quiet with (h' := h); [|apply changes_only_refl|done].
      by apply run_bind_OutOfFuel.
Qed.

Lemma align_to_center_simulates (s : loc) (ds : list loc) (fuel : nat)
    (h : heap) (st : list Deque) :
  holds_state h s ds st →
  simulates s ds h (store.align_to_center fuel s) (quiet (align_to_center fuel st)).
Proof.
  intros Hst. pose proof Hst as (Hs & Hnd & Hall).
  unfold store.align_to_center, align_to_center.
  pose proof (getitem_ref_lookup h s ds 0 Hs) as Href.
  destruct (getitem_Forall2 _ ds st 0 Hall)
    as [(c & center & Hc & Hcenter & _ & Hlc & Hlcenter)|[Hc Hcenter]].
  - rewrite Hcenter. rewrite Hc in Href.
    eapply simulates_ext; [by apply (run_bind_quiet _ _ _ c)|]. cbv beta.
    apply (align_from_simulates s ds fuel c center (range 1 NUM_PIECES));
      [|done..].
    rewrite range_outer. repeat constructor; lia.
  - rewrite Hcenter. rewrite Hc in Href.
    apply (simulates_Raise s ds h _ IndexError). by apply run_bind_Raise.
Qed.

(** ** Reading only: check and print *)

Lemma result_bind_Ok {A B} (a : A) (k : A → result B) : Ok a ≫= k = k a.
Proof. done. Qed.

Lemma check_piece_store (h : heap) (s : loc) (ds : list loc) (st : list Deque) (i : Z) :
  holds_state h s ds st → store.check_piece s i h = ("", h, check_piece st i).
Proof.
  intros Hst. pose proof Hst as (Hs & Hnd & Hall).
  unfold store.check_piece, check_piece.
  set (i' := if bool_decide (i < NUM_SIDES) then i + 1 else 1).
  pose proof (getitem_ref_lookup h s ds i Hs) as Href.
  pose proof (getitem_ref_lookup h s ds i' Hs) as Href'.
  destruct (getitem_Forall2 _ ds st i Hall)
    as [(d & xs & Hd & Hxs & Hdxs & _ & _)|[Hd Hxs]];
    rewrite Hxs; rewrite Hd in Href;
    [|by apply run_bind_Raise].
  rewrite result_bind_Ok, (run_bind_quiet _ _ _ d Href).
  destruct (getitem_Forall2 _ ds st i' Hall)
    as [(d' & xs' & Hd' & Hxs' & Hdxs' & _ & _)|[Hd' Hxs']];
    rewrite Hxs'; rewrite Hd' in Href';
    [|by apply run_bind_Raise].
  rewrite result_bind_Ok, (run_bind_quiet _ _ _ d' Href').
  pose proof (getitem_int_deque h d xs 5 Hdxs) as Ha.
  pose proof (getitem_int_deque h d' xs' 1 Hdxs') as Hb.
  destruct (getitem xs 5) as [a| |];
    [|by apply run_bind_Raise|by apply run_bind_OutOfFuel].
  rewrite result_bind_Ok, (run_bind_quiet _ _ _ a Ha).
  destruct (getitem xs' 1) as [b| |];
    [|by apply run_bind_Raise|by apply run_bind_OutOfFuel].
  by rewrite result_bind_Ok, (run_bind_quiet _ _ _ b Hb).
Qed.

Lemma check_from_store (h : heap) (s : loc) (ds : list loc) (st : list Deque)
    (idxs : list Z) :
  holds_state h s ds st → store.check_from s idxs h = ("", h, check_from st idxs).
Proof.
  intros Hst. induction idxs as [|i idxs IH]; [done|].
  simpl store.check_from. simpl check_from.
  pose proof (check_piece_store h s ds st i Hst) as Hp.
  destruct (check_piece st i) as [b| |];
    [|by apply run_bind_Raise|by apply run_bind_OutOfFuel].
  rewrite (run_bind_quiet _ _ _ b Hp). by destruct b.
Qed.

Lemma check_store (h : heap) (s : loc) (ds : list loc) (st : list Deque) :
  holds_state h s ds st → store.check s h = ("", h, check st).
Proof. apply check_from_store. Qed.

Lemma items_lookup (h : heap) (l : loc) (ls : list loc) :
  h !! l = Some (PyRefs ls) → store.items l h = ("", h, Ok ls).
Proof.
  intros H. unfold store.items.
  by rewrite (run_bind_quiet _ _ _ _ (read_lookup h l _ H)).
Qed.

Lemma print_items_store (h : heap) (ds : list loc) (st : list Deque) :
  Forall2 (λ d xs, h !! d = Some (PyDeque xs)) ds st →
  store.print_items ds h = (written (str_list <$> st), h, Ok tt).
Proof.
  induction 1 as [|d xs ds st Hd _ IH]; [done|].
  simpl store.print_items.
  rewrite (run_bind_quiet _ _ _ _ (read_lookup h d _ Hd)).
  erewrite run_bind_Ok; [|reflexivity].
  rewrite IH. simpl. by rewrite append_nil_r.
Qed.

Lemma print_state_store (h : heap) (s : loc) (ds : list loc) (st : list Deque) :
  holds_state h s ds st →
  store.print_state s h = ((print_state st).1, h, Ok tt).
Proof.
  intros (Hs & _ & Hall). unfold store.print_state.
  rewrite (run_bind_quiet _ _ _ _ (items_lookup h s ds Hs)).
  rewrite (run_bind_Ok _ _ _ _ _ _ (print_items_store h ds st Hall)).
  by rewrite print_state_written.
Qed.

(** ** The passes on the store *)

(** A step that only reads the store. *)
Lemma simulates_read {A} (s : loc) (ds : list loc) (h : heap) (m0 : run A)
    (r : result A) (k : A → run unit) (q : A → io (list Deque)) :
  m0 h = ("", h, r) →
  (∀ a, r = Ok a → simulates s ds h (k a) (q a)) →
  simulates s ds h (m0 ≫= k) (quiet r ≫= q).
Proof.
  intros Hm Hk. destruct r as [a| |].
  - rewrite quiet_bind_Ok.
    eapply simulates_ext; [by apply (run_bind_quiet _ _ _ a)|]. by apply Hk.
  - apply (simulates_Raise s ds h _ e). by apply run_bind_Raise.
  - apply (simulates_quiet s ds h h _ OutOfFuel);
      [by apply run_bind_OutOfFuel|apply changes_only_refl|done].
Qed.

(** A step that only prints. *)
Lemma simulates_print (s : loc) (ds : list loc) (h : heap) (m0 : run unit)
    (out : string) (k : unit → run unit) (p : io (list Deque)) :
  m0 h = (out, h, Ok tt) →
  simulates s ds h (k tt) p →
  simulates s ds h (m0 ≫= k) ((out, Ok tt) ≫= λ _, p).
Proof.
  intros Hm (h' & Hk & Hch & Hst). exists h'. split_and!; [|done..].
  rewrite (run_bind_Ok _ _ _ _ _ _ Hm), Hk. done.
Qed.

Lemma passes_simulates (s : loc) (ds : list loc) (fuel : nat) (rounds : list Z) :
  ∀ (h : heap) (st : list Deque),
    holds_state h s ds st →
    simulates s ds h (store.passes fuel s rounds) (passes fuel st rounds).
Proof.
  induction rounds as [|x rounds IH]; intros h st Hst.
  - exists h. split_and!; [done|apply changes_only_refl|by intros st' [= <-]].
  - rewrite passes_unfold.
    change (store.passes fuel s (x :: rounds))
      with (_ ← store.align_to_center fuel s;
            found ← store.check s;
            _ ← (if found : bool then store.print_state s else mret tt);
            _ ← store.rotate_center s;
            store.passes fuel s rounds).
    apply simulates_bind; [by apply align_to_center_simulates|].
    intros h1 st1 _ Hst1.
    apply simulates_read with (r := check st1); [by eapply check_store|].
    intros found _.
    assert (∃ out, (if found then store.print_state s else mret tt) h1
                     = (out, h1, Ok tt) ∧
                   (if found then print_state st1 else mret tt) = (out, Ok tt))
      as (out & Hout & ->).
    { destruct found.
      - exists (print_state st1).1. split; [by eapply print_state_store|].
        by rewrite print_state_written.
      - by exists "". }
    apply simulates_print; [done|].
    apply simulates_bind; [by apply rotate_center_simulates|].
    intros h2 st2 _ Hst2. by apply IH.
Qed.

(** ** Laws of printing computations *)

Lemma io_eta {A} (m : io A) : (m.1, m.2) = m.
Proof. by destruct m. Qed.

Lemma io_bind_assoc {A B C} (m : io A) (k : A → io B) (k' : B → io C) :
  (m ≫= k) ≫= k' = m ≫= (λ a, k a ≫= k').
Proof.
  unfold mbind, io_bind. destruct m as [o [a| |]]; simpl; [|done..].
  destruct (k a) as [o1 [b| |]]; simpl; [|done..].
  by rewrite append_assoc.
Qed.

Lemma io_bind_mret {A B} (a : A) (k : A → io B) : mret a ≫= k = k a.
Proof. unfold mbind, io_bind, mret, io_ret. simpl. apply io_eta. Qed.

Lemma forget_bind {A B} (p : io A) (q : io B) :
  forget p ≫= (λ _, q) = p ≫= (λ _, q).
Proof. unfold forget, mbind, io_bind. by destruct p as [o [a| |]]. Qed.

Lemma main_from_app (fuel : nat) (l1 l2 : list (list Piece)) :
  main_from fuel (l1 ++ l2) = main_from fuel l1 ≫= λ _, main_from fuel l2.
Proof.
  induction l1 as [|x l1 IH].
  - symmetry. apply (io_bind_mret tt).
  - simpl. by rewrite IH, io_bind_assoc.
Qed.

Lemma consume_seq (fuel : nat) (g1 g2 : gen (list Piece)) :
  consume fuel (gen_seq g1 g2) = consume fuel g1 ≫= λ _, consume fuel g2.
Proof.
  unfold consume, gen_seq. destruct g1 as [l1 [[]| |]]; cbn [fst snd].
  - rewrite main_from_app, !io_bind_assoc.
    destruct (main_from fuel l1) as [o [[]| |]]; [|done..].
    unfold mbind at 1 3, io_bind. cbn [fst snd]. by rewrite quiet_bind_Ok.
  - destruct (main_from fuel l1) as [o [[]| |]]; [|done..].
    unfold mbind, io_bind. cbn. by rewrite append_nil_r.
  - destruct (main_from fuel l1) as [o [[]| |]]; [|done..].
    unfold mbind, io_bind. cbn. by rewrite append_nil_r.
Qed.

Lemma consume_yield (fuel : nat) (layout : list Piece) (g : gen (list Piece)) :
  consume fuel (gen_seq ([layout], Ok tt) g) =
    forget (try_layout fuel layout) ≫= λ _, consume fuel g.
Proof.
  rewrite consume_seq, forget_bind.
  change (consume fuel ([layout], Ok tt))
    with ((try_layout fuel layout ≫= λ _, mret tt) ≫= λ _, quiet (Ok tt)).
  destruct (try_layout fuel layout) as [o [st| |]]; [|done..].
  destruct (consume fuel g) as [o2 r2].
  unfold mbind, io_bind, mret, io_ret, quiet. cbn [fst snd].
  by rewrite !append_nil_r.
Qed.

(** ** New objects *)

Lemma fresh_lookup (h : heap) : h !! fresh (dom h) = None.
Proof. apply not_elem_of_dom, is_fresh. Qed.

Lemma alloc_fresh (h : heap) (o : obj) :
  store.alloc o h = ("", <[fresh (dom h) := o]> h, Ok (fresh (dom h))).
Proof. done. Qed.

Lemma deque_ints (h : heap) (r : loc) (p : list Z) :
  h !! r = Some (PyInts p) →
  store.deque r h = ("", <[fresh (dom h) := PyDeque p]> h, Ok (fresh (dom h))).
Proof.
  intros H. unfold store.deque.
  by rewrite (run_bind_quiet _ _ _ _ (read_lookup h r _ H)).
Qed.

Lemma append_refs (h : heap) (l x : loc) (ls : list loc) :
  h !! l = Some (PyRefs ls) →
  store.append l x h = ("", <[l := PyRefs (ls ++ [x])]> h, Ok tt).
Proof.
  intros H. unfold store.append.
  by rewrite (run_bind_quiet _ _ _ _ (read_lookup h l _ H)).
Qed.

(** The loop of [init_state]: every piece of the layout is copied into a
    new deque. [hb] is the store before the state was made. *)
Lemma init_state_from_spec (hb : heap) (s : loc) (layout : list loc) (ps : list Piece) :
  Forall2 (λ r p, hb !! r = Some (PyInts p)) layout ps →
  ∀ (h : heap) (ds0 : list loc) (st0 : list Deque),
    hb ⊆ h → holds_state h s ds0 st0 →
    (∀ l, l ∈ s :: ds0 → hb !! l = None) →
    ∃ (h' : heap) (ds1 : list loc),
      store.init_state_from s layout h = ("", h', Ok tt) ∧
      hb ⊆ h' ∧
      holds_state h' s (ds0 ++ ds1) (st0 ++ ps) ∧
      (∀ l, l ∈ s :: ds0 ++ ds1 → hb !! l = None).
Proof.
  induction 1 as [|r p layout ps Hr _ IH]; intros h ds0 st0 Hsub Hst Hnew.
  - exists h, []. rewrite !app_nil_r. by split_and!.
  - pose proof Hst as (Hs & Hnd & Hall).
    set (d := fresh (dom h)).
    pose proof (fresh_lookup h) as Hd. fold d in Hd.
    assert (d ≠ s) as Hds by (intros Heq; rewrite Heq in Hd; congruence).
    assert (d ∉ ds0) as Hdds.
    { intros Hin. apply list_elem_of_lookup_1 in Hin as [j Hj].
      destruct (Forall2_lookup_l _ _ _ _ _ Hall Hj) as (xs & Hxs0 & Hxs).
      congruence. }
    set (h1 := <[d := PyDeque p]> h).
    set (h2 := <[s := PyRefs (ds0 ++ [d])]> h1).
    assert (hb !! d = None) as Hbd.
    { destruct (hb !! d) as [o|] eqn:Ho; [|done].
      pose proof (lookup_weaken _ _ _ _ Ho Hsub). congruence. }
    assert (hb !! s = None) as Hbs by (apply Hnew; by left).
    assert (hb ⊆ h2) as Hsub2.
    { unfold h2, h1. by do 2 (apply insert_subseteq_r; [done|]). }
    assert (holds_state h2 s (ds0 ++ [d]) (st0 ++ [p])) as Hst2.
    { apply NoDup_cons in Hnd as [Hsds Hnd]. split_and!.
      - unfold h2. by rewrite lookup_insert_eq.
      - apply NoDup_cons. split.
        + rewrite elem_of_app, list_elem_of_singleton.
          intros [?|?]; [done|congruence].
        + apply NoDup_app. split_and!; [done| |apply NoDup_singleton].
          intros x Hx ->%list_elem_of_singleton. done.
      - apply Forall2_app.
        + eapply Forall2_impl; [done|]. intros d0 xs Hd0. simpl in Hd0.
          unfold h2, h1. rewrite !lookup_insert_ne; [done|congruence..].
        + constructor; [|done]. unfold h2, h1.
          by rewrite lookup_insert_ne, lookup_insert_eq. }
    destruct (IH h2 (ds0 ++ [d]) (st0 ++ [p]) Hsub2 Hst2) as (h' & ds1 & Hrun & ? & ? & Hnew').
    { intros l Hl. rewrite app_comm_cons, elem_of_app, list_elem_of_singleton in Hl.
      destruct Hl as [Hl| ->]; [by apply Hnew|done]. }
    exists h', (d :: ds1).
    rewrite <-!app_assoc in *. simpl in *. split_and!; [|done..].
    simpl store.init_state_from.
    rewrite (run_bind_silent _ _ _ _ d
               (deque_ints h r p (lookup_weaken _ _ _ _ Hr Hsub))).
    assert (h1 !! s = Some (PyRefs ds0)) as Hs1.
    { unfold h1. by rewrite lookup_insert_ne. }
    by rewrite (run_bind_silent _ _ _ _ tt (append_refs h1 s d ds0 Hs1)).
Qed.

Lemma holds_layout_weaken (h h' : heap) (l : loc) (ps : list Piece) :
  holds_layout h l ps → h ⊆ h' → holds_layout h' l ps.
Proof.
  intros (ls & Hl & Hall) Hsub. exists ls. split.
  - by eapply lookup_weaken.
  - eapply Forall2_impl; [done|]. intros r p Hr.
    apply (lookup_weaken h h' r _ Hr Hsub).
Qed.

(** [init_state] makes the state out of new objects only: the list and
    the seven deques are at locations that held nothing before. *)
Lemma init_state_store (h : heap) (l : loc) (layout : list Piece) :
  holds_layout h l layout →
  ∃ (h' : heap) (s : loc) (ds : list loc),
    store.init_state l h = ("", h', Ok s) ∧
    h ⊆ h' ∧
    holds_state h' s ds (init_state layout) ∧
    (∀ x, x ∈ s :: ds → h !! x = None).
Proof.
  intros (ls & Hl & Hall).
  set (s := fresh (dom h)).
  pose proof (fresh_lookup h) as Hs. fold s in Hs.
  set (h1 := <[s := PyRefs []]> h).
  assert (h ⊆ h1) as Hsub by (by apply insert_subseteq).
  destruct (init_state_from_spec h s ls layout Hall h1 [] []) as (h' & ds & Hrun & ? & ? & ?).
  - done.
  - split_and!; [by apply lookup_insert_eq|apply NoDup_singleton|done].
  - by intros x ->%list_elem_of_singleton.
  - exists h', s, ds. unfold init_state. rewrite list_fmap_id.
    split_and!; [|done..].
    unfold store.init_state.
    rewrite (run_bind_silent _ _ _ _ s (alloc_fresh h (PyRefs []))). fold s h1.
    rewrite (run_bind_quiet _ _ _ ls (items_lookup h1 l ls (lookup_weaken _ _ _ _ Hl Hsub))).
    by rewrite (run_bind_silent _ _ _ _ tt Hrun).
Qed.

(** ** A layout on the store *)

Lemma prints_as_bind (h : heap) (m : run unit) (k : unit → run unit)
    (p : io unit) (q : unit → io unit) :
  prints_as h m p →
  (∀ h1, h ⊆ h1 → p.2 = Ok tt → prints_as h1 (k tt) (q tt)) →
  prints_as h (m ≫= k) (p ≫= q).
Proof.
  intros (h1 & Hm & Hsub) Hk. destruct p as [o [[]| |]]; simpl in *.
  - destruct (Hk h1 Hsub eq_refl) as (h2 & Hk2 & Hsub2).
    exists h2. split; [|by etrans].
    by rewrite (run_bind_Ok _ _ _ _ _ _ Hm), Hk2.
  - exists h1. split; [|done]. by rewrite (run_bind_Raise _ _ _ _ _ _ Hm).
  - exists h1. split; [|done]. by rewrite (run_bind_OutOfFuel _ _ _ _ _ Hm).
Qed.

(** Trying a layout on the store writes what it writes on values, and
    changes nothing that was there: all it changes is its own state. *)
Lemma try_layout_store (fuel : nat) (h : heap) (l : loc) (layout : list Piece) :
  holds_layout h l layout →
  prints_as h (store.try_layout fuel l) (forget (try_layout fuel layout)).
Proof.
  intros Hl.
  destruct (init_state_store h l layout Hl) as (h1 & s & ds & Hinit & Hsub & Hst & Hnew).
  destruct (passes_simulates s ds fuel (range 0 NUM_SIDES) h1 _ Hst)
    as (h2 & Hrun & Hch & _).
  exists h2. split.
  - unfold store.try_layout. by rewrite (run_bind_silent _ _ _ _ s Hinit).
  - apply map_subseteq_spec. intros x o Hx.
    rewrite Hch; [by eapply lookup_weaken|].
    intros Hin. rewrite Hnew in Hx; [done|by right].
Qed.

(** ** Permutations of related lists *)

Section permutations_related.
Context {A B : Type} (R : A → B → Prop).

Lemma picks_Forall2 (l1 : list A) (l2 : list B) :
  Forall2 R l1 l2 →
  Forall2 (λ p1 p2, R p1.1 p2.1 ∧ Forall2 R p1.2 p2.2)
          (itertools.picks l1) (itertools.picks l2).
Proof.
  induction 1 as [|x y l1 l2 Hxy Hl IH]; [constructor|].
  simpl. constructor; [done|].
  apply Forall2_fmap. eapply Forall2_impl; [done|].
  intros p1 p2 [H1 H2]. simpl. split; [done|]. by constructor.
Qed.

Lemma permutations_of_length_Forall2 (n : nat) (l1 : list A) (l2 : list B) :
  Forall2 R l1 l2 →
  Forall2 (Forall2 R) (itertools.permutations_of_length n l1)
          (itertools.permutations_of_length n l2).
Proof.
  revert l1 l2. induction n as [|n IH]; intros l1 l2 Hl.
  - by repeat constructor.
  - simpl. apply Forall2_bind.
    eapply Forall2_impl; [by apply picks_Forall2|].
    intros p1 p2 [H1 H2]. simpl.
    apply Forall2_fmap. eapply Forall2_impl; [by apply IH|].
    intros q1 q2 Hq. by constructor.
Qed.

Lemma permutations_Forall2 (l1 : list A) (l2 : list B) :
  Forall2 R l1 l2 →
  Forall2 (Forall2 R) (itertools.permutations l1) (itertools.permutations l2).
Proof.
  intros Hl. unfold itertools.permutations.
  rewrite <-(Forall2_length _ _ _ Hl). by apply permutations_of_length_Forall2.
Qed.

End permutations_related.

(** ** The generator on the store *)

Lemma prints_as_after (h h1 : heap) {A} (m0 : run A) (a : A) (k : A → run unit)
    (p : io unit) :
  m0 h = ("", h1, Ok a) → h ⊆ h1 → prints_as h1 (k a) p → prints_as h (m0 ≫= k) p.
Proof.
  intros Hm Hsub (h2 & Hk & Hsub2). exists h2. split; [|by etrans].
  by rewrite (run_bind_silent _ _ _ _ _ Hm).
Qed.

Lemma prints_as_stop (h h1 : heap) (m : run unit) (r : result unit) :
  m h = ("", h1, r) → h ⊆ h1 → prints_as h m (quiet r).
Proof. intros Hm Hsub. by exists h1. Qed.

(** The [for trailer] loop with the body of [main] at its [yield]. [hb]
    is the store that holds the pieces. *)
Lemma yield_trailers_store (fuel : nat) (hb : heap) (c mb : loc) (center : Piece)
    (mbl : list loc) (mbv : list Piece)
    (trailers : list (list loc)) (trailersv : list (list Piece)) :
  hb !! c = Some (PyInts center) →
  Forall2 (λ r p, hb !! r = Some (PyInts p)) mbl mbv →
  Forall2 (Forall2 (λ r p, hb !! r = Some (PyInts p))) trailers trailersv →
  ∀ h : heap,
    hb ⊆ h → h !! mb = Some (PyRefs mbl) →
    prints_as h (store.yield_trailers (store.try_layout fuel) c mb trailers)
              (consume fuel (yield_trailers center mbv trailersv)).
Proof.
  intros Hc Hmb Htr. induction Htr as [|t tv trailers trailersv Ht _ IH];
    intros h Hsub Hh.
  - by apply (prints_as_stop h h _ (Ok tt)).
  - simpl store.yield_trailers. simpl yield_trailers.
    pose proof (getitem_ref_lookup h mb mbl 0 Hh) as Href.
    destruct (getitem_Forall2 _ mbl mbv 0 Hmb)
      as [(f & fv & Hf & Hfv & Hffv & _ & _)|[Hf Hfv]];
      rewrite Hfv; rewrite Hf in Href; simpl gen_try.
    + eapply prints_as_after; [exact Href|done|]. cbv beta.
      set (l := fresh (dom h)).
      pose proof (fresh_lookup h) as Hl. fold l in Hl.
      set (h1 := <[l := PyRefs ([c] ++ [f] ++ t)]> h).
      assert (h ⊆ h1) as Hsub1 by (by apply insert_subseteq).
      eapply prints_as_after; [apply alloc_fresh|done|]. fold l h1.
      rewrite consume_yield.
      apply prints_as_bind.
      * apply try_layout_store. exists ([c] ++ [f] ++ t). split.
        { by apply lookup_insert_eq. }
        simpl. repeat constructor.
        -- eapply lookup_weaken; [done|by etrans].
        -- eapply lookup_weaken; [done|by etrans].
        -- eapply Forall2_impl; [done|]. intros r p Hr.
           eapply lookup_weaken; [exact Hr|by etrans].
      * intros h2 Hsub2 _. apply IH; [by repeat (etrans; [|done])|].
        eapply lookup_weaken; [|done]. unfold h1.
        rewrite lookup_insert_ne; [done|]. intros ->. congruence.
    + apply (prints_as_stop h h _ (Raise IndexError)); [|done].
      by apply run_bind_Raise.
Qed.

Lemma delitem_Ok {A} (l : list A) (i : Z) (x : A) :
  getitem l i = Ok x → delitem l i = Ok (delete (Z.to_nat (index_of l i)) l).
Proof. intros H. unfold delitem. by rewrite H. Qed.

(** One round of [necklace_perms]: the copy of the list of pieces is a
    new object, and only the copy loses an item. *)
Lemma necklace_perms_round_store (fuel : nat) (hb h : heap) (pl : loc)
    (ls : list loc) (ps : list Piece) (i : Z) :
  Forall2 (λ r p, hb !! r = Some (PyInts p)) ls ps →
  hb ⊆ h → h !! pl = Some (PyRefs ls) →
  prints_as h (store.necklace_perms_round (store.try_layout fuel) pl i)
            (consume fuel (necklace_perms_round ps i)).
Proof.
  intros Hall Hsub Hpl.
  unfold store.necklace_perms_round, necklace_perms_round.
  set (mb := fresh (dom h)).
  pose proof (fresh_lookup h) as Hmb. fold mb in Hmb.
  assert (hb !! mb = None) as Hbmb.
  { destruct (hb !! mb) as [o|] eqn:Ho; [|done].
    pose proof (lookup_weaken _ _ _ _ Ho Hsub). congruence. }
  set (h1 := <[mb := PyRefs ls]> h).
  assert (store.copy pl h = ("", h1, Ok mb)) as Hcopy.
  { unfold store.copy. by rewrite (run_bind_quiet _ _ _ _ (read_lookup h pl _ Hpl)). }
  assert (h1 !! mb = Some (PyRefs ls)) as Hh1 by apply lookup_insert_eq.
  pose proof (getitem_ref_lookup h1 mb ls i Hh1) as Href.
  destruct (getitem_Forall2 _ ls ps i Hall)
    as [(c & center & Hc & Hcenter & Hcc & _ & _)|[Hc Hcenter]];
    rewrite Hcenter; rewrite Hc in Href; simpl gen_try.
  - set (j := Z.to_nat (index_of ls i)).
    rewrite (delitem_Ok ps i center Hcenter).
    rewrite <-(index_of_length ls ps i (Forall2_length _ _ _ Hall)). fold j.
    simpl gen_try.
    set (h2 := <[mb := PyRefs (delete j ls)]> h1).
    assert (store.delitem mb i h1 = ("", h2, Ok tt)) as Hdel.
    { unfold store.delitem.
      rewrite (run_bind_quiet _ _ _ _ (read_lookup h1 mb _ Hh1)).
      by rewrite (delitem_Ok ls i c Hc). }
    assert (h2 !! mb = Some (PyRefs (delete j ls))) as Hh2 by apply lookup_insert_eq.
    assert (h ⊆ h2) as Hsub2.
    { unfold h2, h1. rewrite insert_insert_eq. by apply insert_subseteq. }
    assert (prints_as h2
              (store.yield_trailers (store.try_layout fuel) c mb
                 (itertools.permutations (drop 1 (delete j ls))))
              (consume fuel
                 (yield_trailers center (delete j ps)
                    (itertools.permutations (drop 1 (delete j ps))))))
      as (h3 & Hrun & Hsub3).
    { apply (yield_trailers_store fuel hb c mb center (delete j ls)); [done|..].
      - by apply Forall2_delete.
      - by apply permutations_Forall2, Forall2_drop, Forall2_delete.
      - by etrans.
      - done. }
    exists h3. split; [|by etrans].
    rewrite (run_bind_silent _ _ _ _ mb Hcopy).
    rewrite (run_bind_quiet _ _ _ c Href).
    rewrite (run_bind_silent _ _ _ _ tt Hdel).
    by rewrite (run_bind_quiet _ _ _ _ (items_lookup h2 mb _ Hh2)).
  - apply (prints_as_stop h h1 _ (Raise IndexError)); [|by apply insert_subseteq].
    rewrite (run_bind_silent _ _ _ _ mb Hcopy).
    by apply run_bind_Raise.
Qed.

Lemma necklace_perms_from_store (fuel : nat) (hb : heap) (pl : loc)
    (ls : list loc) (ps : list Piece) (idxs : list Z) :
  Forall2 (λ r p, hb !! r = Some (PyInts p)) ls ps →
  hb !! pl = Some (PyRefs ls) →
  ∀ h : heap,
    hb ⊆ h →
    prints_as h (store.necklace_perms_from (store.try_layout fuel) pl idxs)
              (consume fuel (necklace_perms_from ps idxs)).
Proof.
  intros Hall Hpl. induction idxs as [|i idxs IH]; intros h Hsub.
  - by apply (prints_as_stop h h _ (Ok tt)).
  - simpl store.necklace_perms_from. simpl necklace_perms_from.
    rewrite consume_seq. apply prints_as_bind.
    + eapply necklace_perms_round_store; [done..|]. by eapply lookup_weaken.
    + intros h1 Hsub1 _. apply IH. by etrans.
Qed.

(** C9. [main] on the store, from any store [h] in which the list at
    [pl] holds seven lists of ints with the sides of the fixed pieces.
    Whatever the fuel, and however the run ends, it leaves every object of
    [h] as it was, the list [pieces] and the seven lists of sides among
    them: all it changes are objects that it has made itself. It writes
    the text and ends the way [main] does on values, where every layout
    is tried on a state of its own; so nothing done to the state of one
    layout reaches another. The reasons are the two named in the claim.
    [init_state] makes the state list and its seven deques as new
    objects, different from each other and holding copies of the sides;
    and trying a layout changes nothing that was there before. Inside
    [necklace_perms], [del] works on the copy made by [pieces[:]]. *)
Theorem main_leaves_store (fuel : nat) (h : heap) (pl : loc) :
  holds_layout h pl pieces →
  (∃ h' : heap,
     store.main fuel pl h = ((main fuel).1, h', (main fuel).2) ∧
     h ⊆ h' ∧ holds_layout h' pl pieces) ∧
  (∀ (h1 : heap) (l : loc) (layout : list Piece),
     holds_layout h1 l layout →
     ∃ (h2 : heap) (s : loc) (ds : list loc),
       store.init_state l h1 = ("", h2, Ok s) ∧
       h1 ⊆ h2 ∧
       holds_state h2 s ds (init_state layout) ∧
       ∀ x, x ∈ s :: ds → h1 !! x = None) ∧
  (∀ (h1 : heap) (l : loc) (layout : list Piece),
     holds_layout h1 l layout →
     ∃ h2 : heap,
       store.try_layout fuel l h1 =
         ((try_layout fuel layout).1, h2, ended (try_layout fuel layout).2) ∧
       h1 ⊆ h2).
Proof.
  intros Hpl. split_and!.
  - destruct Hpl as (ls & Hl & Hall).
    destruct (necklace_perms_from_store fuel h pl ls pieces (range 0 NUM_PIECES)
                Hall Hl h) as (h' & Hrun & Hsub); [done|].
    exists h'. split_and!; [exact Hrun|done|].
    apply (holds_layout_weaken h); [by exists ls|done].
  - intros h1 l layout. apply init_state_store.
  - intros h1 l layout Hl. apply (try_layout_store fuel h1 l layout Hl).
Qed.

Lemma main_leaves_store_witness :
  (∃ h' : heap,
     store.main 6 pieces_loc loaded = ((main 6).1, h', (main 6).2) ∧
     loaded ⊆ h' ∧ holds_layout h' pieces_loc pieces) ∧
  (∀ (h1 : heap) (l : loc) (layout : list Piece),
     holds_layout h1 l layout →
     ∃ (h2 : heap) (s : loc) (ds : list loc),
       store.init_state l h1 = ("", h2, Ok s) ∧
       h1 ⊆ h2 ∧
       holds_state h2 s ds (init_state layout) ∧
       ∀ x, x ∈ s :: ds → h1 !! x = None) ∧
  (∀ (h1 : heap) (l : loc) (layout : list Piece),
     holds_layout h1 l layout →
     ∃ h2 : heap,
       store.try_layout 6 l h1 =
         ((try_layout 6 layout).1, h2, ended (try_layout 6 layout).2) ∧
       h1 ⊆ h2).
Proof.
  apply (main_leaves_store 6 loaded pieces_loc).
  exists [1; 2; 3; 4; 5; 6; 7]%positive. split.
  - vm_compute. reflexivity.
  - repeat constructor.
Defined.

(** * Further properties of the program *)

(** ** The alignment loop on any deque *)


Lemma rotated_head_elem_of (k : nat) (d : Deque) (x : Z) :
  rotated k d !! 0%nat = Some x → x ∈ d.
Proof.
  intros H. apply list_elem_of_lookup_2 in H.
  unfold rotated in H. by rewrite rotate_iter_Permutation in H.
Qed.

Lemma rotated_head_is_Some (k : nat) (d : Deque) :
  d ≠ [] → is_Some (rotated k d !! 0%nat).
Proof.
  intros Hd. apply lookup_lt_is_Some. unfold rotated.
  rewrite rotate_iter_length. destruct d; [done|simpl; lia].
Qed.



(** X2. The loop never returns a board when the deque does not carry the
    wanted marking. On an empty deque [piece[0]] raises [IndexError] in
    the first iteration. On any other deque the loop goes on turning it
    for ever: whatever the fuel, it has not stopped. *)
Theorem align_piece_without_marking (state : list Deque) (i : nat) (d : Deque) (v : Z) :
  state !! i = Some d → v ∉ d →
  (d = [] → ∀ fuel, align_piece (S fuel) state (Z.of_nat i) v = Raise IndexError) ∧
  (d ≠ [] → ∀ fuel, align_piece fuel state (Z.of_nat i) v = OutOfFuel).
Proof.
  intros Hd Hv. split.
  - intros -> fuel. simpl. by rewrite (getitem_lookup _ _ _ Hd).
  - intros Hne fuel. apply (align_piece_short i v fuel fuel state d); [done| |done].
    intros j _. destruct (rotated_head_is_Some j d Hne) as [x Hx].
    exists x. split; [done|]. intros ->. apply Hv.
    by eapply rotated_head_elem_of.
Qed.

Lemma align_piece_without_marking_witness :
  ([1; 2; 3] = [] →
   ∀ fuel, align_piece (S fuel) [[4]; [1; 2; 3]] (Z.of_nat 1) 4 = Raise IndexError) ∧
  ([1; 2; 3] ≠ [] →
   ∀ fuel, align_piece fuel [[4]; [1; 2; 3]] (Z.of_nat 1) 4 = OutOfFuel).
Proof.
  apply (align_piece_without_marking [[4]; [1; 2; 3]] 1 [1; 2; 3] 4).
  - reflexivity.
  - apply (bool_decide_unpack _). vm_compute. exact I.
Defined.

(** ** What alignment changes on any board *)


















(** X5. On boards of seven nuts that carry each marking once, the board
    that [align_to_center] returns does not depend on how the outer nuts
    were turned before: two boards with the same centre and, at each
    outer position, turns of the same nut are aligned to the same
    board. *)
Theorem align_to_center_forgets_turns (fuel : nat) (st st' : list Deque) :
  well_formed st → same_nuts st st' → (6 ≤ fuel)%nat →
  align_to_center fuel st' = align_to_center fuel st ∧
  ∃ st1, align_to_center fuel st = Ok st1.
Proof.
  intros Hwf Hsame Hfuel.
  pose proof (same_nuts_well_formed st st' Hsame Hwf) as Hwf'.
  rewrite (align_to_center_aligned fuel st) by (done || apply Hwf).
  rewrite (align_to_center_aligned fuel st') by (done || apply Hwf').
  split; [|by eexists]. f_equal. by apply aligned_same_nuts.
Qed.

Lemma align_to_center_forgets_turns_witness :
  align_to_center 6 (board_at pieces 0) = align_to_center 6 (init_state pieces) ∧
  ∃ st1, align_to_center 6 (init_state pieces) = Ok st1.
Proof.
  apply (align_to_center_forgets_turns 6 (init_state pieces) (board_at pieces 0)).
  - split; [reflexivity|]. apply (bool_decide_unpack _). vm_compute. exact I.
  - split; [reflexivity|]. vm_compute.
    repeat constructor;
      first [by exists 0%nat|by exists 1%nat|by exists 2%nat|by exists 3%nat|
             by exists 4%nat|by exists 5%nat].
  - lia.
Defined.

(** ** What the check reads *)

(** [check_piece] in terms of the two sides it reads. *)
Lemma check_piece_sides (st : list Deque) (i : nat) :
  (1 ≤ i ≤ 6)%nat →
  check_piece st (Z.of_nat i) =
    match st !! i ≫= (.!! 5%nat), st !! neighbour i ≫= (.!! 1%nat) with
    | Some a, Some b => Ok (bool_decide (a = b))
    | _, _ => Raise IndexError
    end.
Proof.
  intros Hi. unfold check_piece.
  replace (if bool_decide (Z.of_nat i < NUM_SIDES) then Z.of_nat i + 1 else 1)
    with (Z.of_nat (neighbour i)).
  2:{ unfold neighbour, NUM_SIDES. case_bool_decide; case_decide; lia. }
  rewrite !getitem_nat.
  destruct (st !! i) as [piece|]; simpl; [|done].
  destruct (st !! neighbour i) as [right|]; simpl.
  - change (getitem piece 5) with (getitem piece (Z.of_nat 5)).
    change (getitem right 1) with (getitem right (Z.of_nat 1)).
    rewrite (getitem_nat piece 5), (getitem_nat right 1).
    destruct (piece !! 5%nat); simpl; [|done].
    by destruct (right !! 1%nat).
  - by destruct (piece !! 5%nat).
Qed.



Lemma check_from_true (st : list Deque) (idxs : list Z) :
  check_from st idxs = Ok true ↔ Forall (λ i, check_piece st i = Ok true) idxs.
Proof.
  induction idxs as [|i idxs IH]; [done|].
  rewrite Forall_cons, <-IH. simpl.
  destruct (check_piece st i) as [[]| |]; simpl.
  - split; [by intros ?|by intros [_ ?]].
  - split; [done|by intros [? _]].
  - split; [done|by intros [? _]].
  - split; [done|by intros [? _]].
Qed.

Lemma check_from_results (st : list Deque) (idxs : list nat) :
  Forall (λ i, (1 ≤ i ≤ 6)%nat) idxs →
  check_from st (Z.of_nat <$> idxs) = Ok true ∨
  check_from st (Z.of_nat <$> idxs) = Ok false ∨
  check_from st (Z.of_nat <$> idxs) = Raise IndexError.
Proof.
  induction 1 as [|i idxs Hi _ IH]; [by left|].
  rewrite fmap_cons. simpl. rewrite (check_piece_sides st i Hi).
  destruct (st !! i ≫= (.!! 5%nat)); [|by right; right].
  destruct (st !! neighbour i ≫= (.!! 1%nat)); [|by right; right].
  simpl. case_bool_decide; simpl; [done|]. by right; left.
Qed.

Lemma range_outer_nat : range 1 NUM_PIECES = Z.of_nat <$> [1; 2; 3; 4; 5; 6]%nat.
Proof. reflexivity. Qed.


(** One comparison succeeds when both sides are there and equal. *)
Lemma check_piece_true (st : list Deque) (i : nat) :
  (1 ≤ i ≤ 6)%nat →
  check_piece st (Z.of_nat i) = Ok true ↔
  ∃ a : Z, st !! i ≫= (.!! 5%nat) = Some a ∧
           st !! neighbour i ≫= (.!! 1%nat) = Some a.
Proof.
  intros Hi. rewrite (check_piece_sides st i Hi).
  destruct (st !! i ≫= (.!! 5%nat)) as [a|];
    [|split; [done|by intros (? & ? & ?)]].
  destruct (st !! neighbour i ≫= (.!! 1%nat)) as [b|];
    [|split; [done|by intros (? & ? & ?)]].
  case_bool_decide as Hab.
  - subst b. split; [by exists a|done].
  - split; [done|]. intros (x & [= ->] & [= ->]). done.
Qed.

Lemma check_true_adjacent (st : list Deque) : check st = Ok true ↔ adjacent 1 st.
Proof.
  unfold check. rewrite range_outer_nat, check_from_true, Forall_fmap.
  rewrite adjacent_cases, !Forall_forall.
  split; intros H i Hi; apply (check_piece_true st i); try (by apply H);
    rewrite !elem_of_cons, elem_of_nil in Hi; lia.
Qed.

(** X7. [check] on any board. It returns [True] exactly when the six
    comparisons around the rim succeed, and otherwise returns [False] or
    raises [IndexError]. So it never returns [True] on a board with fewer
    than seven positions, nor when one of the nuts at the positions 1 to
    6 has fewer than six sides. *)
Theorem check_on_any_board (st : list Deque) :
  (check st = Ok true ↔ adjacent 1 st) ∧
  (check st = Ok true ∨ check st = Ok false ∨ check st = Raise IndexError) ∧
  (check st = Ok true →
   (7 ≤ length st)%nat ∧
   ∀ i : nat, (1 ≤ i ≤ 6)%nat → ∃ d, st !! i = Some d ∧ (6 ≤ length d)%nat).
Proof.
  pose proof (check_true_adjacent st) as Hiff.
  split_and!.
  - done.
  - unfold check. rewrite range_outer_nat. apply check_from_results.
    repeat constructor; lia.
  - intros Hadj%Hiff.
    assert (∀ i : nat, (1 ≤ i ≤ 6)%nat →
              ∃ d, st !! i = Some d ∧ (6 ≤ length d)%nat) as Hshape.
    { intros i Hi. destruct (Hadj i Hi) as (a & Ha & _).
      destruct (st !! i) as [d|]; [|done]. exists d. split; [done|].
      simpl in Ha. apply lookup_lt_Some in Ha. lia. }
    split; [|done].
    destruct (Hshape 6%nat) as (d & Hd & _); [lia|].
    apply lookup_lt_Some in Hd. lia.
Qed.

(** ** The generator on other lists of pieces *)

Lemma round_layouts_total (ps : list Piece) (idxs : list nat) :
  Forall (λ i, (i < length ps)%nat) idxs → (2 ≤ length ps)%nat →
  length (idxs ≫= round_layouts ps) = (length idxs * fact (length ps - 2))%nat.
Proof.
  intros Hidxs Hlen. induction Hidxs as [|i idxs Hi _ IH]; [done|].
  rewrite bind_cons, length_app, IH, round_layouts_length by done. simpl. lia.
Qed.

Lemma necklace_perms_round_raises (ps : list Piece) (n : nat) :
  (length ps ≤ n)%nat → necklace_perms_round ps (Z.of_nat n) = ([], Raise IndexError).
Proof.
  intros Hn. unfold necklace_perms_round.
  rewrite getitem_nat. by rewrite (lookup_ge_None_2 ps n Hn).
Qed.

Lemma seq_split_at (n : nat) :
  (n < 7)%nat → seq 0 7 = seq 0 n ++ n :: seq (S n) (6 - n).
Proof. intros Hn. do 7 (destruct n as [|n]; [reflexivity|]). lia. Qed.

(** The rounds up to the first index that the list does not have. *)
Lemma necklace_perms_from_raises (ps : list Piece) (idxs more : list nat) (n : nat) :
  (2 ≤ length ps)%nat → Forall (λ i, (i < length ps)%nat) idxs →
  (length ps ≤ n)%nat →
  necklace_perms_from ps (Z.of_nat <$> (idxs ++ n :: more)) =
    (idxs ≫= round_layouts ps, Raise IndexError).
Proof.
  intros Hlen Hidxs Hn. induction Hidxs as [|i idxs Hi _ IH].
  - simpl. rewrite (necklace_perms_round_raises ps n Hn). done.
  - simpl. rewrite fmap_app, fmap_cons in IH.
    rewrite fmap_app, fmap_cons, IH.
    by rewrite (necklace_perms_round_layouts ps i Hi Hlen).
Qed.

(** X8. [necklace_perms] takes the number of rounds from the global
    [NUM_PIECES], not from the list it is given. On a list of fewer than
    seven pieces it yields the layouts of the rounds that the list has
    ([n * (n - 2)!] of them for [n] pieces, none for a list of one piece)
    and then raises [IndexError], when it looks for the centre of a round
    that the list does not have, or on a list of one piece for the pinned
    piece. *)
Theorem necklace_perms_short (ps : list Piece) :
  (length ps < 7)%nat →
  necklace_perms ps = (seq 0 (length ps) ≫= round_layouts ps, Raise IndexError) ∧
  ((2 ≤ length ps)%nat →
   length (necklace_perms ps).1 = (length ps * fact (length ps - 2))%nat) ∧
  ((length ps ≤ 1)%nat → (necklace_perms ps).1 = []).
Proof.
  intros Hlen.
  assert (necklace_perms ps
          = (seq 0 (length ps) ≫= round_layouts ps, Raise IndexError)) as Heq.
  { destruct (decide (2 ≤ length ps)%nat) as [H2|H2].
    - unfold necklace_perms. rewrite range_pieces.
      change [0; 1; 2; 3; 4; 5; 6] with (Z.of_nat <$> seq 0 7).
      rewrite (seq_split_at (length ps) Hlen).
      apply necklace_perms_from_raises; [done| |done].
      apply Forall_forall. intros i Hi%elem_of_seq. lia.
    - destruct ps as [|p [|p' ps]]; [done|done|simpl in H2; lia]. }
  split_and!.
  - done.
  - intros H2. rewrite Heq. cbn [fst].
    rewrite round_layouts_total, length_seq; [done| |done].
    apply Forall_forall. intros i Hi%elem_of_seq. lia.
  - intros H1. rewrite Heq. cbn [fst].
    destruct ps as [|p [|p' ps]]; [done|done|simpl in H1; lia].
Qed.

Lemma necklace_perms_short_witness :
  necklace_perms [[1; 2]; [3; 4]; [5; 6]]
    = (seq 0 (length [[1; 2]; [3; 4]; [5; 6]])
         ≫= round_layouts [[1; 2]; [3; 4]; [5; 6]], Raise IndexError) ∧
  ((2 ≤ length [[1; 2]; [3; 4]; [5; 6]]%Z)%nat →
   length (necklace_perms [[1; 2]; [3; 4]; [5; 6]]).1
     = (length [[1; 2]; [3; 4]; [5; 6]]%Z
        * fact (length [[1; 2]; [3; 4]; [5; 6]]%Z - 2))%nat) ∧
  ((length [[1; 2]; [3; 4]; [5; 6]]%Z ≤ 1)%nat →
   (necklace_perms [[1; 2]; [3; 4]; [5; 6]]).1 = []).
Proof. apply (necklace_perms_short [[1; 2]; [3; 4]; [5; 6]]). simpl. lia. Defined.

Lemma necklace_perms_at_least_seven (ps : list Piece) :
  (7 ≤ length ps)%nat →
  necklace_perms ps = (seq 0 7 ≫= round_layouts ps, Ok tt).
Proof.
  intros Hlen. unfold necklace_perms. rewrite range_pieces.
  apply (necklace_perms_from_layouts ps (seq 0 7)); [lia|].
  apply Forall_forall. intros i Hi%elem_of_seq. lia.
Qed.

(** X9. On a list of more than seven pieces [necklace_perms] does not
    raise. It still makes seven rounds only: it yields [7 * (n - 2)!]
    layouts for [n] pieces, every layout is a rearrangement of all the
    [n] pieces, and the centre of every layout is one of the first seven
    pieces; a piece from index 7 on is never in the centre. *)
Theorem necklace_perms_long (ps : list Piece) :
  (7 ≤ length ps)%nat →
  (necklace_perms ps).2 = Ok tt ∧
  length (necklace_perms ps).1 = (7 * fact (length ps - 2))%nat ∧
  Forall (λ layout, layout ≡ₚ ps ∧
                    ∃ i, (i < 7)%nat ∧ layout !! 0%nat = ps !! i ∧
                         is_Some (ps !! i))
         (necklace_perms ps).1.
Proof.
  intros Hlen. rewrite necklace_perms_at_least_seven by done. cbn [fst snd].
  split_and!.
  - done.
  - rewrite round_layouts_total, length_seq; [done| |lia].
    apply Forall_forall. intros i Hi%elem_of_seq. lia.
  - apply Forall_bind, Forall_forall. intros i Hi%elem_of_seq.
    apply Forall_forall. intros layout Hl. split.
    + by eapply round_layouts_Permutation.
    + apply round_layouts_inv in Hl as (c & f & rest & t & Hc & _ & _ & ->).
      exists i. split_and!; [lia|by rewrite Hc|by rewrite Hc].
Qed.

Lemma necklace_perms_long_witness :
  (necklace_perms (pieces ++ [[6; 5; 4; 3; 2; 1]])).2 = Ok tt ∧
  length (necklace_perms (pieces ++ [[6; 5; 4; 3; 2; 1]])).1
    = (7 * fact (length (pieces ++ [[6; 5; 4; 3; 2; 1]%Z]) - 2))%nat ∧
  Forall (λ layout, layout ≡ₚ pieces ++ [[6; 5; 4; 3; 2; 1]] ∧
                    ∃ i, (i < 7)%nat ∧
                         layout !! 0%nat = (pieces ++ [[6; 5; 4; 3; 2; 1]]) !! i ∧
                         is_Some ((pieces ++ [[6; 5; 4; 3; 2; 1]]) !! i))
         (necklace_perms (pieces ++ [[6; 5; 4; 3; 2; 1]])).1.
Proof. apply (necklace_perms_long (pieces ++ [[6; 5; 4; 3; 2; 1]])). simpl. lia. Defined.

Lemma delete_first (ps : list Piece) (i : nat) :
  delete i ps !! 0%nat = ps !! (if decide (i = 0)%nat then 1 else 0)%nat.
Proof.
  case_decide as Hi.
  - subst i. by destruct ps.
  - apply list_lookup_delete_lt. lia.
Qed.

Lemma round_layouts_centres (ps : list Piece) (i : nat) :
  (λ layout : list Piece, layout !! 0%nat) <$> round_layouts ps i
  = replicate (length (round_layouts ps i)) (ps !! i).
Proof.
  unfold round_layouts.
  destruct (ps !! i) as [c|]; [|done].
  destruct (delete i ps) as [|f rest]; [done|].
  rewrite length_fmap. rewrite <-list_fmap_compose.
  induction (itertools.permutations rest) as [|t ts IH]; [done|].
  rewrite fmap_cons. simpl. f_equal. exact IH.
Qed.

(** X10. The order and the pinned piece of the layouts, for seven pieces or
    more. [necklace_perms] yields the layouts round by round: first all
    those with piece 0 in the centre, then all those with piece 1, and so
    on to piece 6, the same number in each round. Within a round
    position 1 always holds the same piece, the first of those left when
    the centre is taken out: piece 1 in round 0, piece 0 in the other
    rounds. *)
Theorem necklace_perms_pins (ps : list Piece) :
  (7 ≤ length ps)%nat →
  (λ layout : list Piece, layout !! 0%nat) <$> (necklace_perms ps).1
    = (i ← seq 0 7; replicate (fact (length ps - 2)) (ps !! i)) ∧
  Forall (λ layout,
            ∃ i, (i < 7)%nat ∧ layout !! 0%nat = ps !! i ∧
                 layout !! 1%nat = ps !! (if decide (i = 0)%nat then 1 else 0)%nat)
         (necklace_perms ps).1.
Proof.
  intros Hlen. rewrite necklace_perms_at_least_seven by done. cbn [fst snd].
  split.
  - assert (∀ idxs, Forall (λ i, (i < length ps)%nat) idxs →
              (λ layout : list Piece, layout !! 0%nat) <$> (idxs ≫= round_layouts ps)
              = (i ← idxs; replicate (fact (length ps - 2)) (ps !! i))) as Hrounds.
    { induction 1 as [|i idxs Hi _ IH]; [done|].
      rewrite !bind_cons, fmap_app, IH, round_layouts_centres.
      by rewrite round_layouts_length by lia. }
    apply Hrounds, Forall_forall. intros i Hi%elem_of_seq. lia.
  - apply Forall_bind, Forall_forall. intros i Hi%elem_of_seq.
    apply Forall_forall. intros layout Hl.
    apply round_layouts_inv in Hl as (c & f & rest & t & Hc & Hdel & _ & ->).
    exists i. split_and!; [lia|by rewrite Hc|].
    rewrite <-delete_first, Hdel. done.
Qed.

Lemma necklace_perms_pins_witness :
  (λ layout : list Piece, layout !! 0%nat) <$> (necklace_perms pieces).1
    = (i ← seq 0 7; replicate (fact (length pieces - 2)) (pieces !! i)) ∧
  Forall (λ layout,
            ∃ i, (i < 7)%nat ∧ layout !! 0%nat = pieces !! i ∧
                 layout !! 1%nat = pieces !! (if decide (i = 0)%nat then 1 else 0)%nat)
         (necklace_perms pieces).1.
Proof. apply (necklace_perms_pins pieces). simpl. lia. Defined.

(** ** Every arrangement is yielded, up to where the ring starts *)

Section permutations_complete.
Context {A : Type}.

Lemma picks_elem_of (l1 l2 : list A) (x : A) :
  (x, l1 ++ l2) ∈ itertools.picks (l1 ++ x :: l2).
Proof.
  induction l1 as [|y l1 IH]; simpl; [by left|].
  right. apply list_elem_of_fmap. by exists (x, l1 ++ l2).
Qed.

(** [itertools.permutations] leaves no ordering out. *)
Lemma permutations_of_length_complete (n : nat) (l q : list A) :
  length l = n → q ≡ₚ l → q ∈ itertools.permutations_of_length n l.
Proof.
  revert l q. induction n as [|n IH]; intros l q Hlen Hq.
  - apply nil_length_inv in Hlen as ->. apply Permutation_nil_r in Hq as ->.
    by apply list_elem_of_singleton.
  - destruct q as [|x q].
    { apply Permutation_length in Hq. simpl in Hq. lia. }
    assert (x ∈ l) as Hx by (rewrite <-Hq; by left).
    apply list_elem_of_split in Hx as (l1 & l2 & ->).
    rewrite <-Permutation_middle in Hq. apply Permutation_cons_inv in Hq.
    simpl. apply list_elem_of_bind. exists (x, l1 ++ l2). split.
    + apply list_elem_of_fmap. exists q. split; [done|]. simpl.
      apply IH; [|done]. rewrite length_app in *. simpl in *. lia.
    + apply picks_elem_of.
Qed.

Lemma permutations_complete (l q : list A) :
  q ≡ₚ l → q ∈ itertools.permutations l.
Proof. by apply permutations_of_length_complete. Qed.

Lemma ring_from_Permutation (k : nat) (ring : list A) : ring_from k ring ≡ₚ ring.
Proof. unfold ring_from. by rewrite Permutation_app_comm, take_drop. Qed.

Lemma ring_from_head (k : nat) (ring : list A) :
  (k < length ring)%nat → ring_from k ring !! 0%nat = ring !! k.
Proof.
  intros Hk. unfold ring_from.
  rewrite lookup_app_l by (rewrite length_drop; lia).
  rewrite lookup_drop. f_equal. lia.
Qed.

End permutations_complete.

Lemma necklace_perms_covers_some (ps : list Piece) (c : Piece) (ring : list Piece) :
  length ps = 7%nat → c :: ring ≡ₚ ps →
  ∃ k : nat, (k < 6)%nat ∧ c :: ring_from k ring ∈ (necklace_perms ps).1.
Proof.
  intros Hlen Hperm.
  rewrite necklace_perms_layouts by done. cbn [fst].
  assert (c ∈ ps) as Hc by (rewrite <-Hperm; by left).
  apply list_elem_of_lookup_1 in Hc as [i Hi].
  pose proof (lookup_lt_Some _ _ _ Hi) as Hi7.
  pose proof (delete_Permutation ps i c Hi) as Hdel.
  pose proof (length_delete ps i (ltac:(eauto))) as Hdlen.
  destruct (delete i ps) as [|first rest] eqn:Hd; [simpl in Hdlen; lia|].
  assert (ring ≡ₚ first :: rest) as Hring.
  { apply (Permutation_cons_inv (a := c)). by rewrite Hperm. }
  assert (length ring = 6%nat) as Hrlen.
  { rewrite (Permutation_length Hring). simpl in *. lia. }
  assert (first ∈ ring) as Hf by (rewrite Hring; by left).
  apply list_elem_of_lookup_1 in Hf as [k Hk].
  pose proof (lookup_lt_Some _ _ _ Hk) as Hk6.
  exists k. split; [lia|].
  apply list_elem_of_bind. exists i. split; [|apply elem_of_seq; lia].
  unfold round_layouts. rewrite Hi, Hd.
  apply list_elem_of_fmap. exists (drop (S k) ring ++ take k ring). split.
  - unfold ring_from. by rewrite (drop_S _ _ _ Hk).
  - apply permutations_complete.
    apply (Permutation_cons_inv (a := first)).
    etrans; [|exact Hring].
    change (first :: drop (S k) ring ++ take k ring)
      with ((first :: drop (S k) ring) ++ take k ring).
    rewrite <-(drop_S _ _ _ Hk). apply ring_from_Permutation.
Qed.

(** X11. [necklace_perms] leaves no arrangement out and yields none
    twice, up to where the outer ring starts. For seven different pieces
    and any way of putting one of them in the centre and the other six
    around it, exactly one of the six ways of reading the ring (from its
    place 0, 1, ... or 5 on) gives a layout that is yielded: the one that
    starts at the pinned piece. *)
Theorem necklace_perms_covers (ps : list Piece) (c : Piece) (ring : list Piece) :
  length ps = 7%nat → NoDup ps → c :: ring ≡ₚ ps →
  ∃ k : nat,
    (k < 6)%nat ∧
    c :: ring_from k ring ∈ (necklace_perms ps).1 ∧
    ∀ k' : nat, (k' < 6)%nat →
      c :: ring_from k' ring ∈ (necklace_perms ps).1 → k' = k.
Proof.
  intros Hlen Hnd Hperm.
  rewrite necklace_perms_layouts by done. cbn [fst].
  assert (c ∈ ps) as Hc by (rewrite <-Hperm; by left).
  apply list_elem_of_lookup_1 in Hc as [i Hi].
  pose proof (lookup_lt_Some _ _ _ Hi) as Hi7.
  pose proof (delete_Permutation ps i c Hi) as Hdel.
  pose proof (length_delete ps i (ltac:(eauto))) as Hdlen.
  destruct (delete i ps) as [|first rest] eqn:Hd; [simpl in Hdlen; lia|].
  assert (ring ≡ₚ first :: rest) as Hring.
  { apply (Permutation_cons_inv (a := c)). by rewrite Hperm. }
  assert (length ring = 6%nat) as Hrlen.
  { rewrite (Permutation_length Hring). simpl in *. lia. }
  assert (NoDup ring) as Hrnd.
  { rewrite <-Hperm in Hnd. by apply NoDup_cons in Hnd as [_ ?]. }
  assert (first ∈ ring) as Hf by (rewrite Hring; by left).
  apply list_elem_of_lookup_1 in Hf as [k Hk].
  pose proof (lookup_lt_Some _ _ _ Hk) as Hk6.
  exists k. split_and!; [lia| |].
  - apply list_elem_of_bind. exists i. split; [|apply elem_of_seq; lia].
    unfold round_layouts. rewrite Hi, Hd.
    apply list_elem_of_fmap. exists (drop (S k) ring ++ take k ring). split.
    + unfold ring_from. by rewrite (drop_S _ _ _ Hk).
    + apply permutations_complete.
      apply (Permutation_cons_inv (a := first)).
      etrans; [|exact Hring].
      change (first :: drop (S k) ring ++ take k ring)
        with ((first :: drop (S k) ring) ++ take k ring).
      rewrite <-(drop_S _ _ _ Hk). apply ring_from_Permutation.
  - intros k' Hk' Hin.
    apply list_elem_of_bind in Hin as (i' & Hin & _).
    apply round_layouts_inv in Hin
      as (c' & first' & rest' & t & Hc' & Hd' & _ & [= <- Hrest]).
    assert (i' = i) as -> by apply (NoDup_lookup ps i' i c Hnd Hc' Hi).
    rewrite Hd in Hd'. injection Hd' as <- <-.
    assert (ring_from k' ring !! 0%nat = Some first) as Hhead by (by rewrite Hrest).
    rewrite ring_from_head in Hhead by lia.
    apply (NoDup_lookup ring k' k first Hrnd Hhead Hk).
Qed.

Lemma necklace_perms_covers_witness :
  ∃ k : nat,
    (k < 6)%nat ∧
    [1; 2; 3; 4; 5; 6]
      :: ring_from k [[1; 3; 5; 2; 4; 6]; [1; 6; 5; 4; 3; 2]; [1; 5; 3; 2; 6; 4];
                      [1; 2; 5; 6; 3; 4]; [1; 3; 5; 4; 2; 6]; [1; 4; 2; 3; 5; 6]]
      ∈ (necklace_perms pieces).1 ∧
    ∀ k' : nat, (k' < 6)%nat →
      [1; 2; 3; 4; 5; 6]
        :: ring_from k' [[1; 3; 5; 2; 4; 6]; [1; 6; 5; 4; 3; 2]; [1; 5; 3; 2; 6; 4];
                         [1; 2; 5; 6; 3; 4]; [1; 3; 5; 4; 2; 6]; [1; 4; 2; 3; 5; 6]]
        ∈ (necklace_perms pieces).1 → k' = k.
Proof.
  apply (necklace_perms_covers pieces).
  - reflexivity.
  - apply (bool_decide_unpack _). vm_compute. exact I.
  - apply (bool_decide_unpack _). vm_compute. exact I.
Defined.

(** ** What the passes over a layout find *)

Lemma aligned_faces_center (s : list Deque) : well_formed s → faces_center (aligned s).
Proof.
  intros Hwf. destruct s as [|c o]; [by destruct Hwf|].
  intros i Hi. destruct i as [|j]; [lia|].
  destruct Hwf as [Hlen Hall]. simpl in Hlen.
  destruct (lookup_lt_is_Some_2 o j) as [d Hd]; [lia|].
  destruct (well_formed_outer c o j d (conj (f_equal S (eq_add_S _ _ Hlen)) Hall) Hd)
    as (v & Hv & Hnd & Hvd).
  exists v. rewrite (aligned_lookup_outer c o j d v Hd Hv). simpl.
  rewrite Nat.sub_0_r. split; [by apply face_head|done].
Qed.

Lemma board_at_faces_center (layout : list Piece) (r : nat) :
  well_formed layout → faces_center (board_at layout r).
Proof.
  intros Hwf. unfold board_at.
  assert (init_state layout = layout) as -> by apply list_fmap_id.
  by apply aligned_faces_center, well_formed_iter_turn_center.
Qed.

(** A board that holds the nuts of a layout and faces the centre is the
    board of one of the six passes. *)
Lemma faces_center_board_at (layout : list Piece) (st : list Deque) :
  well_formed layout → Forall2 is_rotation layout st → faces_center st →
  ∃ r, (r < 6)%nat ∧ st = board_at layout r.
Proof.
  intros Hwf Hrot Hfaces.
  destruct layout as [|c o]; [by destruct Hwf|].
  apply Forall2_cons_inv_l in Hrot as (c' & o' & [k ->] & Hrot & ->).
  pose proof Hwf as [Hlen Hall]. apply Forall_cons in Hall as [Hc Hall].
  pose proof (markings_once_length c Hc) as Hc6.
  exists (k mod 6)%nat. split; [by apply Nat.mod_upper_bound|].
  unfold board_at.
  assert (init_state (c :: o) = c :: o) as -> by apply list_fmap_id.
  rewrite iter_turn_center.
  rewrite <-Hc6 at 1. rewrite <-rotated_mod. simpl. f_equal.
  apply list_eq. intros j. rewrite list_lookup_imap.
  destruct (o !! j) as [d|] eqn:Hd.
  - destruct (Forall2_lookup_l _ _ _ _ _ Hrot Hd) as (d' & Hd' & [kd ->]).
    rewrite Hd'. simpl. f_equal.
    pose proof (lookup_lt_Some _ _ _ Hd) as Hj. simpl in Hlen.
    destruct (Hfaces (S j)) as (v & Hhead & Hside); [lia|].
    simpl in Hhead, Hside. rewrite Hd' in Hhead. simpl in Hhead.
    rewrite Nat.sub_0_r in Hside. rewrite Hside. simpl.
    apply rotated_head_face; [|done].
    apply markings_once_NoDup. by eapply Forall_lookup_1.
  - apply lookup_ge_None in Hd. rewrite (Forall2_length _ _ _ Hrot) in Hd.
    apply lookup_ge_None in Hd. by rewrite Hd.
Qed.

Lemma print_state_nonempty (st : list Deque) : (print_state st).1 ≠ "".
Proof.
  rewrite print_state_written. simpl.
  intros H. apply (f_equal chars) in H. rewrite chars_append in H.
  by destruct (chars (written (str_list <$> st))).
Qed.

Lemma report_check (st : list Deque) :
  report st ≠ "" ↔ check st = Ok true.
Proof.
  unfold report. destruct (check st) as [[]| |]; split; try done.
  intros _. apply print_state_nonempty.
Qed.

Lemma elem_of_found_on (layout : list Piece) (st : list Deque) :
  st ∈ found_on layout ↔
  ∃ r, (r < 6)%nat ∧ st = board_at layout r ∧ check st = Ok true.
Proof.
  unfold found_on. rewrite list_elem_of_filter, list_elem_of_fmap. split.
  - intros (Hcheck & r & -> & Hr%elem_of_seq). exists r. split_and!; [lia|done..].
  - intros (r & Hr & -> & Hcheck). split; [done|]. exists r. split; [done|].
    apply elem_of_seq. lia.
Qed.

(** X12. The passes over a layout of seven nuts that carry each marking
    once find every solution that the layout has, and nothing else. Take
    any way of turning the seven nuts in their places. If the board
    solves the puzzle (every outer nut agrees with the centre and with
    its two neighbours) then it is the board of one of the six passes,
    its check succeeds, and its line is what that pass writes. And a pass
    that writes something writes the line of a board that solves the
    puzzle. *)
Theorem try_layout_finds (fuel : nat) (layout : list Piece) :
  well_formed layout → (6 ≤ fuel)%nat →
  (try_layout fuel layout).1 = written (report <$> (board_at layout <$> seq 0 6)) ∧
  (∀ st : list Deque,
     Forall2 is_rotation layout st → solved st →
     ∃ r, (r < 6)%nat ∧ st = board_at layout r ∧ check st = Ok true ∧
          report (board_at layout r) = (print_state st).1) ∧
  (∀ r : nat,
     report (board_at layout r) ≠ "" →
     solved (board_at layout r) ∧
     Forall2 is_rotation layout (board_at layout r) ∧
     report (board_at layout r) = (print_state (board_at layout r)).1).
Proof.
  intros Hwf Hfuel. split_and!.
  - by rewrite try_layout_boards.
  - intros st Hrot [Hfaces Hadj].
    destruct (faces_center_board_at layout st Hwf Hrot Hfaces) as (r & Hr & ->).
    apply check_true_adjacent in Hadj.
    exists r. split_and!; [done..|]. unfold report. by rewrite Hadj.
  - intros r Hrep. pose proof Hrep as Hcheck%report_check.
    split_and!.
    + split; [by apply board_at_faces_center|by apply check_true_adjacent].
    + by apply board_at_is_rotation.
    + unfold report. by rewrite Hcheck.
Qed.

Lemma try_layout_finds_witness :
  (try_layout 6 pieces).1 = written (report <$> (board_at pieces <$> seq 0 6)) ∧
  (∀ st : list Deque,
     Forall2 is_rotation pieces st → solved st →
     ∃ r, (r < 6)%nat ∧ st = board_at pieces r ∧ check st = Ok true ∧
          report (board_at pieces r) = (print_state st).1) ∧
  (∀ r : nat,
     report (board_at pieces r) ≠ "" →
     solved (board_at pieces r) ∧
     Forall2 is_rotation pieces (board_at pieces r) ∧
     report (board_at pieces r) = (print_state (board_at pieces r)).1).
Proof.
  apply (try_layout_finds 6 pieces).
  - split; [reflexivity|]. apply (bool_decide_unpack _). vm_compute. exact I.
  - lia.
Defined.

(** ** The puzzle has one solution *)

Lemma ring_from_rotated (k : nat) (d : Deque) :
  (k ≤ length d)%nat → ring_from k d = rotated (length d - k) d.
Proof.
  intros Hk. unfold ring_from, rotated.
  rewrite rotate_iter_drop_take by lia.
  by replace (length d - (length d - k))%nat with k by lia.
Qed.

Lemma ring_from_is_rotation (k : nat) (d d' : Deque) :
  (k ≤ length d')%nat → is_rotation d d' → is_rotation d (ring_from k d').
Proof.
  intros Hk Hrot. eapply is_rotation_trans; [done|].
  exists (length d' - k)%nat. by apply ring_from_rotated.
Qed.

Lemma ring_from_Forall2 {A B} (R : A → B → Prop) (k : nat) (l1 : list A) (l2 : list B) :
  Forall2 R l1 l2 → Forall2 R (ring_from k l1) (ring_from k l2).
Proof.
  intros H. unfold ring_from.
  apply Forall2_app; [by apply Forall2_drop|by apply Forall2_take].
Qed.

Lemma ring_inv {A} (ring : list A) :
  length ring = 6%nat → ∃ a b c e f g, ring = [a; b; c; e; f; g].
Proof.
  intros H. do 6 (destruct ring as [|? ring]; [done|]).
  destruct ring; [|done]. by eauto 10.
Qed.

(** Turning a solved board of seven nuts leaves it solved. *)
Lemma turned_board_solved (k : nat) (st : list Deque) (c : Deque) (ring : list Deque) :
  st = c :: ring → length c = 6%nat → length ring = 6%nat → (k < 6)%nat →
  solved st → solved (turned_board k st).
Proof.
  intros -> Hc Hring Hk [Hfaces Hadj].
  destruct (sides_inv c Hc) as (c0 & c1 & c2 & c3 & c4 & c5 & ->).
  destruct (ring_inv ring Hring) as (d1 & d2 & d3 & d4 & d5 & d6 & ->).
  pose proof (Hfaces 1%nat ltac:(lia)) as (v1 & Hf1 & Hg1).
  pose proof (Hfaces 2%nat ltac:(lia)) as (v2 & Hf2 & Hg2).
  pose proof (Hfaces 3%nat ltac:(lia)) as (v3 & Hf3 & Hg3).
  pose proof (Hfaces 4%nat ltac:(lia)) as (v4 & Hf4 & Hg4).
  pose proof (Hfaces 5%nat ltac:(lia)) as (v5 & Hf5 & Hg5).
  pose proof (Hfaces 6%nat ltac:(lia)) as (v6 & Hf6 & Hg6).
  pose proof (Hadj 1%nat ltac:(lia)) as (a1 & Ha1 & Hb1).
  pose proof (Hadj 2%nat ltac:(lia)) as (a2 & Ha2 & Hb2).
  pose proof (Hadj 3%nat ltac:(lia)) as (a3 & Ha3 & Hb3).
  pose proof (Hadj 4%nat ltac:(lia)) as (a4 & Ha4 & Hb4).
  pose proof (Hadj 5%nat ltac:(lia)) as (a5 & Ha5 & Hb5).
  pose proof (Hadj 6%nat ltac:(lia)) as (a6 & Ha6 & Hb6).
  simpl in *.
  destruct k as [|[|[|[|[|[|k]]]]]]; [..|lia];
    (split; intros i Hi;
     destruct i as [|[|[|[|[|[|[|i]]]]]]]; try lia; simpl; eauto).
Qed.

(** All that the search finds on the fixed pieces. *)
Lemma found_on_pieces : (necklace_perms pieces).1 ≫= found_on = [solved_board].
Proof. by vm_compute. Qed.

Lemma Permutation_pieces_markings (q : list Piece) (st : list Deque) :
  q ≡ₚ pieces → Forall2 is_rotation q st →
  length st = 7%nat ∧ Forall (λ d, length d = 6%nat) st.
Proof.
  intros Hq Hrot. pose proof (Permutation_pieces_well_formed q Hq) as [Hlen Hall].
  split; [by rewrite <-(Forall2_length _ _ _ Hrot)|].
  apply Forall_forall. intros d' Hd'.
  apply list_elem_of_lookup_1 in Hd' as [j Hj].
  destruct (Forall2_lookup_r _ _ _ _ _ Hrot Hj) as (d & Hd & Hdd').
  apply markings_once_length. eapply is_rotation_markings_once; [done|].
  by eapply Forall_lookup_1.
Qed.

(** X13. The puzzle of the seven fixed pieces has one solution, and the
    search prints it. Take any board made of the seven pieces, each on
    one position and turned in any way. If it solves the puzzle, then
    turning the whole board by some number of places below 6 gives the
    board whose line [main] prints. *)
Theorem pieces_one_solution (q : list Piece) (st : list Deque) :
  q ≡ₚ pieces → Forall2 is_rotation q st → solved st →
  ∃ k : nat,
    (k < 6)%nat ∧
    turned_board k st = solved_board ∧
    ((print_state (turned_board k st)).1, Ok tt) = main 6.
Proof.
  intros Hq Hrot Hsolved.
  destruct (Permutation_pieces_markings q st Hq Hrot) as [Hlen Hsix].
  destruct q as [|c ring].
  { apply Permutation_length in Hq. done. }
  apply Forall2_cons_inv_l in Hrot as (c' & ring' & Hc & Hring & ->).
  apply Forall_cons in Hsix as [Hc6 Hsix].
  assert (length ring' = 6%nat) as Hr6 by (simpl in Hlen; lia).
  destruct (necklace_perms_covers_some pieces c ring eq_refl Hq) as (k & Hk & Hin).
  pose proof candidates_well_formed as Hall. rewrite Forall_forall in Hall.
  pose proof (Hall _ Hin) as Hwf.
  pose proof (turned_board_solved k (c' :: ring') c' ring' eq_refl Hc6 Hr6 Hk Hsolved)
    as Hsolved'.
  assert (Forall2 is_rotation (c :: ring_from k ring) (turned_board k (c' :: ring')))
    as Hrot'.
  { simpl. constructor.
    - apply ring_from_is_rotation; [lia|done].
    - by apply ring_from_Forall2. }
  destruct (faces_center_board_at _ _ Hwf Hrot' (proj1 Hsolved')) as (r & Hr & Hboard).
  assert (turned_board k (c' :: ring') ∈ (necklace_perms pieces).1 ≫= found_on) as Hfound.
  { apply list_elem_of_bind. exists (c :: ring_from k ring). split; [|done].
    apply elem_of_found_on. exists r. split_and!; [done..|].
    apply check_true_adjacent, Hsolved'. }
  rewrite found_on_pieces in Hfound. apply list_elem_of_singleton in Hfound.
  exists k. split_and!; [done..|].
  rewrite Hfound. by vm_compute.
Qed.

Lemma turned_solved_board_solved : solved (turned_board 2 solved_board).
Proof.
  apply (turned_board_solved 2 solved_board [1; 3; 5; 4; 2; 6]
           [[1; 5; 3; 2; 6; 4]; [3; 4; 5; 6; 1; 2]; [5; 2; 4; 6; 1; 3];
            [4; 3; 2; 1; 6; 5]; [2; 5; 6; 3; 4; 1]; [6; 1; 4; 2; 3; 5]]);
    [done..|lia|].
  split.
  - intros i Hi. destruct i as [|[|[|[|[|[|[|i]]]]]]]; try lia; by eexists.
  - intros i Hi. destruct i as [|[|[|[|[|[|[|i]]]]]]]; try lia; by eexists.
Qed.

Lemma pieces_one_solution_witness :
  ∃ k : nat,
    (k < 6)%nat ∧
    turned_board k (turned_board 2 solved_board) = solved_board ∧
    ((print_state (turned_board k (turned_board 2 solved_board))).1, Ok tt) = main 6.
Proof.
  apply (pieces_one_solution
           [[1; 3; 5; 4; 2; 6]; [1; 3; 5; 2; 4; 6]; [1; 6; 5; 4; 3; 2];
            [1; 2; 5; 6; 3; 4]; [1; 4; 2; 3; 5; 6]; [1; 5; 3; 2; 6; 4];
            [1; 2; 3; 4; 5; 6]]).
  - apply (bool_decide_unpack _). vm_compute. exact I.
  - vm_compute.
    repeat constructor;
      first [by exists 0%nat|by exists 1%nat|by exists 2%nat|by exists 3%nat|
             by exists 4%nat|by exists 5%nat].
  - apply turned_solved_board_solved.
Defined.

(** ** A line tells its board *)

Lemma chars_inj (s1 s2 : string) : chars s1 = chars s2 → s1 = s2.
Proof.
  revert s2. induction s1 as [|a s1 IH]; intros [|b s2] H; simplify_eq/=; [done|].
  f_equal. by apply IH.
Qed.

Lemma pretty_N_go_chars (x : N) (s : string) :
  ∃ pre, chars (pretty_N_go x s) = pre ++ chars s ∧ Forall is_num_char pre ∧
         ((0 < x)%N → pre ≠ []).
Proof.
  revert s. induction (N.lt_wf_0 x) as [x _ IH]; intros s.
  destruct (decide (0 < x)%N) as [Hx|Hx].
  - rewrite pretty_N_go_step by done.
    destruct (IH (x `div` 10)%N (N.div_lt x 10 Hx eq_refl)
                 (String (pretty_N_char (x `mod` 10)) s))
      as (pre & Hpre & Hnum & _).
    exists (pre ++ [pretty_N_char (x `mod` 10)]). split_and!.
    + rewrite Hpre. simpl. by rewrite <-app_assoc.
    + apply Forall_app. split; [done|]. constructor; [|done].
      unfold pretty_N_char, is_num_char.
      repeat case_match; apply (bool_decide_unpack _); by vm_compute.
    + intros _. by destruct pre.
  - assert (x = 0%N) as -> by lia. exists []. rewrite pretty_N_go_0.
    split_and!; [done|done|lia].
Qed.

Lemma pretty_N_chars (x : N) :
  Forall is_num_char (chars (pretty x)) ∧ chars (pretty x) ≠ [].
Proof.
  unfold pretty, pretty_N. case_decide as Hx.
  - split; [|done]. repeat constructor.
  - destruct (pretty_N_go_chars x "") as (pre & Hpre & Hnum & Hne).
    rewrite Hpre, app_nil_r. split; [done|]. apply Hne. lia.
Qed.

(** The decimal text of an int: not empty, and made of digits and the
    minus sign. *)
Lemma pretty_Z_chars (z : Z) :
  Forall is_num_char (chars (pretty z)) ∧ chars (pretty z) ≠ [].
Proof.
  destruct z as [|x|x]; unfold pretty, pretty_Z.
  - split; [|done]. repeat constructor.
  - apply (pretty_N_chars (N.pos x)).
  - rewrite chars_append. split; [|done].
    apply Forall_app. split; [|apply (pretty_N_chars (N.pos x))].
    repeat constructor.
Qed.

(** Where a run of number characters ends is told by the text. *)
Lemma run_unique (s1 s2 r1 r2 : list Ascii.ascii) (c1 c2 : Ascii.ascii) :
  Forall is_num_char s1 → Forall is_num_char s2 →
  ¬ is_num_char c1 → ¬ is_num_char c2 →
  s1 ++ c1 :: r1 = s2 ++ c2 :: r2 → s1 = s2 ∧ c1 = c2 ∧ r1 = r2.
Proof.
  intros H1. revert s2. induction H1 as [|a s1 Ha H1 IH]; intros s2 H2 Hc1 Hc2 Heq.
  - destruct H2 as [|b s2 Hb H2]; simplify_eq/=; done.
  - destruct H2 as [|b s2 Hb H2]; simplify_eq/=; [done|].
    destruct (IH s2 H2 Hc1 Hc2) as (-> & -> & ->); done.
Qed.

(** The text between the brackets of [str_list]. *)
Lemma chars_str_list (l : list Z) :
  chars (str_list l) =
    chars "[" ++ chars (String.concat ", " (pretty <$> l)) ++ chars "]".
Proof. unfold str_list. by rewrite !chars_append. Qed.

Lemma chars_concat_cons (x : Z) (l : list Z) :
  chars (String.concat ", " (pretty <$> (x :: l))) =
    chars (pretty x) ++
    match l with
    | [] => []
    | _ => chars ", " ++ chars (String.concat ", " (pretty <$> l))
    end.
Proof.
  destruct l as [|y l]; [by rewrite app_nil_r|].
  change (String.concat ", " (pretty <$> x :: y :: l))
    with (pretty x +:+ ", " +:+ String.concat ", " (pretty <$> y :: l)).
  by rewrite !chars_append.
Qed.

Lemma not_num_char_delimiter (c : Ascii.ascii) :
  c ∈ chars "], [" → ¬ is_num_char c.
Proof.
  unfold is_num_char. intros Hc Hn.
  apply (bool_decide_pack _) in Hn.
  repeat (apply elem_of_cons in Hc as [->|Hc]; [by vm_compute in Hn|]).
  by apply elem_of_nil in Hc.
Qed.

(** The sides of a piece are told by its text, whatever follows the
    closing bracket. *)
Lemma concat_chars_inj (l l' : list Z) (r r' : list Ascii.ascii) :
  chars (String.concat ", " (pretty <$> l)) ++ chars "]" ++ r =
  chars (String.concat ", " (pretty <$> l')) ++ chars "]" ++ r' →
  l = l' ∧ r = r'.
Proof.
  revert l'. induction l as [|x l IH]; intros [|x' l'] Heq.
  - by simplify_eq/=.
  - exfalso. rewrite chars_concat_cons, <-app_assoc in Heq.
    destruct (pretty_Z_chars x') as [Hnum Hne].
    destruct l' as [|y' l'].
    + eapply (run_unique [] _ _ _ _ _) in Heq as (? & _); [done|done|done|..];
        apply not_num_char_delimiter; repeat constructor.
    + eapply (run_unique [] _ _ _ _ _) in Heq as (? & _); [done|done|done|..];
        apply not_num_char_delimiter; repeat constructor.
  - exfalso. rewrite chars_concat_cons, <-app_assoc in Heq.
    destruct (pretty_Z_chars x) as [Hnum Hne].
    destruct l as [|y l].
    + eapply (run_unique _ [] _ _ _ _) in Heq as (? & _); [done|done|done|..];
        apply not_num_char_delimiter; repeat constructor.
    + eapply (run_unique _ [] _ _ _ _) in Heq as (? & _); [done|done|done|..];
        apply not_num_char_delimiter; repeat constructor.
  - rewrite !chars_concat_cons, <-!app_assoc in Heq.
    destruct (pretty_Z_chars x) as [Hnum _], (pretty_Z_chars x') as [Hnum' _].
    destruct l as [|y l], l' as [|y' l'].
    + eapply run_unique in Heq as (Hx & _ & Hr); [|done|done|..];
        [|apply not_num_char_delimiter; repeat constructor..].
      apply chars_inj, (inj pretty) in Hx. by subst.
    + eapply run_unique in Heq as (_ & ? & _); [done|done|done|..];
        apply not_num_char_delimiter; repeat constructor.
    + eapply run_unique in Heq as (_ & ? & _); [done|done|done|..];
        apply not_num_char_delimiter; repeat constructor.
    + eapply run_unique in Heq as (Hx & _ & Hr); [|done|done|..];
        [|apply not_num_char_delimiter; repeat constructor..].
      apply chars_inj, (inj pretty) in Hx. subst x'.
      destruct (IH (y' :: l')) as [Hl ->]; [|by rewrite Hl].
      by injection Hr.
Qed.

Lemma print_state_chars_inj (st st' : list Deque) (r r' : list Ascii.ascii) :
  chars (print_state st).1 ++ r = chars (print_state st').1 ++ r' →
  st = st' ∧ r = r'.
Proof.
  rewrite !print_state_written. cbn [fst]. rewrite !chars_append, <-!app_assoc.
  revert st'. induction st as [|d st IH]; intros [|d' st'] Heq.
  - by simplify_eq/=.
  - exfalso. cbn [fmap list_fmap written foldr] in Heq.
    rewrite chars_append, chars_str_list in Heq. by simplify_eq/=.
  - exfalso. cbn [fmap list_fmap written foldr] in Heq.
    rewrite chars_append, chars_str_list in Heq. by simplify_eq/=.
  - cbn [fmap list_fmap written foldr] in Heq.
    rewrite !chars_append, !chars_str_list, <-!app_assoc in Heq.
    injection Heq as Heq.
    apply concat_chars_inj in Heq as [-> Heq].
    apply IH in Heq as [-> ->]. done.
Qed.

(** X14. The lines written for a run of boards tell the
    boards: when two runs of boards, of any shape and with any ints as
    sides, are written as the same text, they are the same boards in the
    same order.  So no line is the start of another, and a line is read
    back in one way only. *)
Theorem print_state_tells_boards (boards boards' : list (list Deque)) :
  lines_of boards = lines_of boards' → boards = boards'.
Proof.
  unfold lines_of. intros Heq. apply (f_equal chars) in Heq.
  assert (∀ r r',
    chars (written ((λ board, (print_state board).1) <$> boards)) ++ r =
    chars (written ((λ board, (print_state board).1) <$> boards')) ++ r' →
    length r = length r' → boards = boards') as Hgen.
  { clear Heq. revert boards'.
    induction boards as [|b bs IH]; intros [|b' bs'] r r' Heq Hlen.
    - done.
    - exfalso. cbn [fmap list_fmap written foldr] in Heq.
      rewrite chars_append, <-app_assoc in Heq. simpl in Heq.
      apply (f_equal length) in Heq. rewrite !length_app in Heq.
      pose proof (print_state_nonempty b') as Hne.
      destruct (print_state b').1; [done|]. simpl in Heq. lia.
    - exfalso. cbn [fmap list_fmap written foldr] in Heq.
      rewrite chars_append, <-app_assoc in Heq. simpl in Heq.
      apply (f_equal length) in Heq. rewrite !length_app in Heq.
      pose proof (print_state_nonempty b) as Hne.
      destruct (print_state b).1; [done|]. simpl in Heq. lia.
    - cbn [fmap list_fmap written foldr] in Heq.
      rewrite !chars_append, <-!app_assoc in Heq.
      apply print_state_chars_inj in Heq as [-> Heq].
      f_equal. by eapply IH. }
  apply (Hgen [] []); [|done]. by rewrite !app_nil_r.
Qed.

Lemma print_state_tells_boards_witness :
  lines_of [solved_board; init_state pieces] =
    lines_of [solved_board; init_state pieces] ∧
  [solved_board; init_state pieces] = [solved_board; init_state pieces].
Proof.
  split; [reflexivity|].
  apply (print_state_tells_boards [solved_board; init_state pieces]
           [solved_board; init_state pieces]).
  reflexivity.
Defined.
